(** * ezdxf.path.path : the Path engine

  A shallow embedding of [src/ezdxf/path/path.py] and the properties of
  its command model, mutation API, reversal and sampling traversal.

  The geometry primitives of [ezdxf.math] (point comparison, Bezier
  samplers, coordinate frames, ellipse and spline conversion) are consumed
  interfaces: they are bundled in the classes [FloatOps] and [MathKernel]
  and every definition of the Path class is written against them. *)

From Stdlib Require Import List ZArith QArith Qabs Bool Lia.
Import ListNotations.

(* ------------------------------------------------------------------ *)
(** ** Python floats, as far as path.py looks at them *)

Class FloatOps (float : Type) := {
  fzero : float;                      (* the literal 0 *)
  truthy : float -> bool;             (* [if x:] -- x is not zero *)
  abs_lt : float -> Q -> bool;        (* [abs(x) < literal] *)
  is_pos : float -> bool;             (* [x > 0] *)
}.

(* ------------------------------------------------------------------ *)
(** ** Points and Bezier curves (value types of ezdxf.math) *)

Section Points.
Context {float : Type} {FO : FloatOps float}.

Record Vec3 := mkVec3 { vx : float; vy : float; vz : float }.

Definition NULLVEC : Vec3 := mkVec3 fzero fzero fzero.

(** [Vec3(x, y)] : the z axis defaults to 0. *)
Definition Vec3_xy (x y : float) : Vec3 := mkVec3 x y fzero.

(** [v.replace(z=elevation)] *)
Definition replace_z (v : Vec3) (elevation : float) : Vec3 :=
  mkVec3 (vx v) (vy v) elevation.

(** [Bezier4P.control_points] is a 4-tuple, [Bezier3P.control_points] a
    3-tuple; [reverse()] builds the curve on the reversed tuple. *)
Record Bezier4P := mkBezier4P { control_points4 : Vec3 * Vec3 * Vec3 * Vec3 }.
Record Bezier3P := mkBezier3P { control_points3 : Vec3 * Vec3 * Vec3 }.

Definition reverse4 (c : Bezier4P) : Bezier4P :=
  let '(p0, p1, p2, p3) := control_points4 c in mkBezier4P (p3, p2, p1, p0).

Definition reverse3 (c : Bezier3P) : Bezier3P :=
  let '(p0, p1, p2) := control_points3 c in mkBezier3P (p2, p1, p0).

(** [curve.control_points[0]] and [curve.control_points[-1]] *)
Definition first_point4 (c : Bezier4P) : Vec3 :=
  let '(p0, _, _, _) := control_points4 c in p0.
Definition last_point4 (c : Bezier4P) : Vec3 :=
  let '(_, _, _, p3) := control_points4 c in p3.
Definition first_point3 (c : Bezier3P) : Vec3 :=
  let '(p0, _, _) := control_points3 c in p0.
Definition last_point3 (c : Bezier3P) : Vec3 :=
  let '(_, _, p2) := control_points3 c in p2.
End Points.

Arguments Vec3 float : clear implicits.
Arguments Bezier4P float : clear implicits.
Arguments Bezier3P float : clear implicits.

(* ------------------------------------------------------------------ *)
(** ** Exceptions and generators *)

(** [class Command(enum.IntEnum)] *)
Inductive Command : Type :=
| START_PATH      (* -1, external command, not used in Path() *)
| LINE_TO         (* 1 *)
| CURVE3_TO       (* 2 *)
| CURVE4_TO.      (* 3 *)

Definition Command_value (c : Command) : Z :=
  match c with
  | START_PATH => -1
  | LINE_TO => 1
  | CURVE3_TO => 2
  | CURVE4_TO => 3
  end.

Inductive exn : Type :=
| ValueError_requires_empty_path           (* ValueError('Requires an empty path.') *)
| ValueError_invalid_command (t : Command) (* ValueError(f'Invalid command: {cmd.type}') *)
| IndexError                               (* subscript out of range *)
| AttributeError                           (* attribute missing on a foreign element *)
| RuntimeError_StopIteration               (* next() on an exhausted iterator inside a generator *)
| PrimitiveError (code : Z).               (* raised inside a geometry primitive *)

(** A finite generator run to its end: the values it yielded, and the
    exception that ended it, if one did. *)
Definition Gen (A : Type) : Type := (list A * option exn)%type.

(* ------------------------------------------------------------------ *)
(** ** The consumed geometry interface *)

Class MathKernel (float : Type) {FO : FloatOps float} := {
  (** [a.isclose(b)] and [a.isclose(b, abs_tol=t)]; [None] is the default *)
  isclose : Vec3 float -> Vec3 float -> option Q -> bool;
  Z_AXIS : Vec3 float;
  degrees : float -> float;
  (** object coordinate system *)
  OCS : Type;
  ocs_transform : OCS -> bool;
  ocs_to_wcs : OCS -> Vec3 float -> Vec3 float;
  (** ellipses and arcs *)
  ConstructionEllipse : Type;
  param_span : ConstructionEllipse -> float;
  start_point : ConstructionEllipse -> Vec3 float;
  from_arc : Vec3 float -> float -> Vec3 float -> float -> float -> ConstructionEllipse;
  bulge_to_arc : Vec3 float -> Vec3 float -> float -> Vec3 float * float * float * float;
  cubic_bezier_from_ellipse : ConstructionEllipse -> Z -> list (Bezier4P float);
  (** B-splines *)
  BSpline : Type;
  spline_point0 : BSpline -> Vec3 float;          (* spline.point(0) *)
  spline_degree : BSpline -> Z;
  is_rational : BSpline -> bool;
  is_clamped : BSpline -> bool;
  bezier_decomposition : BSpline -> list (Vec3 float * Vec3 float * Vec3 float * Vec3 float);
  cubic_bezier_approximation : BSpline -> Z -> list (Bezier4P float);
  (** Bezier samplers *)
  bezier3_approximate : Bezier3P float -> Z -> Gen (Vec3 float);
  bezier4_approximate : Bezier4P float -> Z -> Gen (Vec3 float);
  bezier3_flattening : Bezier3P float -> float -> Z -> Gen (Vec3 float);
  bezier4_flattening : Bezier4P float -> float -> Z -> Gen (Vec3 float);
}.

(* ------------------------------------------------------------------ *)
(** ** Path elements and the Path class *)

Section PathModel.
Context {float : Type} {FO : FloatOps float} {MK : MathKernel float}.

Local Abbreviation Vec3 := (Vec3 float).
Local Abbreviation Bezier4P := (Bezier4P float).
Local Abbreviation Bezier3P := (Bezier3P float).

(** The three NamedTuples of the module.  A Python list is untyped, and
    the traversals keep an [else] branch for an element whose [type] is
    none of LINE_TO, CURVE3_TO, CURVE4_TO: [External] is such an element,
    of kind START_PATH, the remaining member of [Command].  It has the two
    attributes every traversal reads before it dispatches ([type], [end])
    and no other. *)
Inductive PathElement : Type :=
| LineTo (end_ : Vec3)
| Curve3To (end_ ctrl : Vec3)
| Curve4To (end_ ctrl1 ctrl2 : Vec3)
| External (end_ : Vec3).

Definition cmd_type (cmd : PathElement) : Command :=
  match cmd with
  | LineTo _ => LINE_TO
  | Curve3To _ _ => CURVE3_TO
  | Curve4To _ _ _ => CURVE4_TO
  | External _ => START_PATH
  end.

Definition cmd_end (cmd : PathElement) : Vec3 :=
  match cmd with
  | LineTo e | Curve3To e _ | Curve4To e _ _ | External e => e
  end.

(** the kinds the traversals know: [cmd.type] is LINE_TO, CURVE3_TO or
    CURVE4_TO *)
Definition supported (cmd : PathElement) : bool :=
  match cmd_type cmd with
  | LINE_TO | CURVE3_TO | CURVE4_TO => true
  | START_PATH => false
  end.

(** [cmd.to_wcs(ocs, elevation)] *)
Definition cmd_to_wcs (cmd : PathElement) (ocs : OCS) (elevation : float)
  : exn + PathElement :=
  let w v := ocs_to_wcs ocs (replace_z v elevation) in
  match cmd with
  | LineTo e => inr (LineTo (w e))
  | Curve3To e ctrl => inr (Curve3To (w e) (w ctrl))
  | Curve4To e ctrl1 ctrl2 => inr (Curve4To (w e) (w ctrl1) (w ctrl2))
  | External _ => inl AttributeError
  end.

Record Path : Type := mkPath { _start : Vec3; _commands : list PathElement }.

(** [Path(start)] *)
Definition Path_init (start : Vec3) : Path := mkPath start [].

(** *** The method monad
    Methods run in a state-and-exception monad over the receiver.  An
    exception leaves the mutations made before it in place. *)
Definition M (A : Type) : Type := Path -> (exn + A) * Path.

Definition ret {A} (a : A) : M A := fun p => (inr a, p).
Definition raise {A} (e : exn) : M A := fun p => (inl e, p).
Definition bind {A B} (m : M A) (k : A -> M B) : M B :=
  fun p => match m p with
           | (inr a, p') => k a p'
           | (inl e, p') => (inl e, p')
           end.
Definition gets {A} (f : Path -> A) : M A := fun p => (inr (f p), p).
Definition modify (f : Path -> Path) : M unit := fun p => (inr tt, f p).
Definition lift {A} (r : exn + A) : M A := fun p => (r, p).

Definition exec {A} (m : M A) (p : Path) : Path := snd (m p).

Local Notation "x <- m ;; k" := (bind m (fun x => k))
  (at level 61, m at next level, right associativity).
Local Notation "m ;;; k" := (bind m (fun _ => k))
  (at level 61, right associativity).

(** [for x in xs: body(x)] *)
Fixpoint for_each {A} (xs : list A) (body : A -> M unit) : M unit :=
  match xs with
  | [] => ret tt
  | x :: rest => body x ;;; for_each rest body
  end.

(** *** Properties *)

(** [len(self)] *)
Definition len (p : Path) : nat := length (_commands p).

(** [self[item]] for an index in [0, len) *)
Definition getitem (p : Path) (item : nat) : exn + PathElement :=
  match nth_error (_commands p) item with
  | Some cmd => inr cmd
  | None => inl IndexError
  end.

Definition start (p : Path) : Vec3 := _start p.

(** [start.setter] *)
Definition set_start (location : Vec3) : M unit :=
  n <- gets len ;;
  match n with
  | S _ => raise ValueError_requires_empty_path
  | O => modify (fun p => mkPath location (_commands p))
  end.

(** [end] : [self._commands[-1].end] when there are commands *)
Definition end_ (p : Path) : Vec3 :=
  match _commands p with
  | [] => _start p
  | c :: cs => cmd_end (last cs c)
  end.

Definition is_closed (p : Path) : bool := isclose (_start p) (end_ p) None.

(** *** Appending commands *)

Definition append (cmd : PathElement) : M unit :=
  modify (fun p => mkPath (_start p) (_commands p ++ [cmd])).

Definition line_to (location : Vec3) : M unit := append (LineTo location).

Definition curve3_to (location ctrl : Vec3) : M unit :=
  append (Curve3To location ctrl).

Definition curve4_to (location ctrl1 ctrl2 : Vec3) : M unit :=
  append (Curve4To location ctrl1 ctrl2).

Definition close : M unit :=
  closed <- gets is_closed ;;
  if negb closed then (s <- gets start ;; line_to s) else ret tt.

(** [Path.from_vertices(vertices, close)] *)
Definition from_vertices (vertices : list Vec3) (close_ : bool) : Path :=
  match vertices with
  | [] | [_] => Path_init NULLVEC
  | v0 :: rest =>
      exec (for_each rest line_to ;;; if close_ then close else ret tt)
           (Path_init v0)
  end.

(** *** Reversal *)

(** loop body of [reversed], run on the path under construction *)
Definition reversed_body (self : Path) (index : nat) : M unit :=
  cmd <- lift (getitem self index) ;;
  prev_end <- (if (0 <? index)%nat
               then (prev <- lift (getitem self (index - 1)) ;; ret (cmd_end prev))
               else ret (start self)) ;;
  match cmd with
  | LineTo _ => line_to prev_end
  | Curve3To _ ctrl => curve3_to prev_end ctrl
  | Curve4To _ ctrl1 ctrl2 => curve4_to prev_end ctrl2 ctrl1
  | External _ => ret tt
  end.

(** [range(n - 1, -1, -1)] *)
Definition range_down (n : nat) : list nat := rev (seq 0 n).

Definition reversed (self : Path) : exn + Path :=
  match len self with
  | O => inr (Path_init NULLVEC)
  | S _ =>
      match for_each (range_down (len self)) (reversed_body self)
                     (Path_init (end_ self)) with
      | (inr _, path) => inr path
      | (inl e, _) => inl e
      end
  end.

(** *** Curve chains *)

Definition _reverse_bezier_curves {B} (reverse : B -> B) (curves : list B)
  : list B := rev (map reverse curves).

Definition tol_1e_9 : Q := 1 # 1000000000.
Definition tol_1e_6 : Q := 1 # 1000000.

Definition add_curves4 (curves : list Bezier4P) : M unit :=
  match curves with
  | [] => ret tt
  | c0 :: cs =>
      let end_point := last_point4 (last cs c0) in
      self_end <- gets end_ ;;
      let curves := if isclose self_end end_point None
                    then _reverse_bezier_curves reverse4 curves
                    else curves in
      for_each curves (fun curve =>
        let '(start, ctrl1, ctrl2, end_point) := control_points4 curve in
        self_end <- gets end_ ;;
        (if negb (isclose start self_end (Some tol_1e_9))
         then line_to start else ret tt) ;;;
        curve4_to end_point ctrl1 ctrl2)
  end.

Definition add_curves3 (curves : list Bezier3P) : M unit :=
  match curves with
  | [] => ret tt
  | c0 :: cs =>
      let end_point := last_point3 (last cs c0) in
      self_end <- gets end_ ;;
      let curves := if isclose self_end end_point None
                    then _reverse_bezier_curves reverse3 curves
                    else curves in
      for_each curves (fun curve =>
        let '(start, ctrl, end_point) := control_points3 curve in
        self_end <- gets end_ ;;
        (if negb (isclose start self_end (Some tol_1e_9))
         then line_to start else ret tt) ;;;
        curve3_to end_point ctrl)
  end.

(** *** 2D polylines with bulges *)

(** [self._commands[i] = v] *)
Fixpoint setitem {A} (i : nat) (v : A) (l : list A) : list A :=
  match l, i with
  | [], _ => []
  | _ :: rest, O => v :: rest
  | a :: rest, S j => a :: setitem j v rest
  end.

Definition _to_wcs (ocs : OCS) (elevation : float) : M unit :=
  modify (fun p => mkPath (ocs_to_wcs ocs (replace_z (_start p) elevation))
                          (_commands p)) ;;;
  cmds <- gets _commands ;;
  for_each (combine (seq 0 (length cmds)) cmds) (fun '(i, cmd) =>
    cmd' <- lift (cmd_to_wcs cmd ocs elevation) ;;
    modify (fun p => mkPath (_start p) (setitem i cmd' (_commands p)))).

(** the local function [bulge_to] of [add_2d_polyline] *)
Definition bulge_to (p1 p2 : Vec3) (bulge : float) : M unit :=
  if isclose p1 p2 None then ret tt
  else
    let '(center, start_angle, end_angle, radius) := bulge_to_arc p1 p2 bulge in
    let ellipse := from_arc center radius Z_AXIS
                            (degrees start_angle) (degrees end_angle) in
    let curves := cubic_bezier_from_ellipse ellipse 1 in
    match curves with
    | [] => raise IndexError
    | curve0 :: _ =>
        let cp0 := first_point4 curve0 in
        let curves := if isclose cp0 p2 None
                      then _reverse_bezier_curves reverse4 curves
                      else curves in
        add_curves4 curves
    end.

(** the [for x, y, bulge in points] loop with its two locals *)
Fixpoint polyline_loop (points : list (float * float * float))
  (prev_point : option Vec3) (prev_bulge : float) : M float :=
  match points with
  | [] => ret prev_bulge
  | (x, y, bulge) :: rest =>
      let bulge := if abs_lt bulge tol_1e_6 then fzero else bulge in
      let point := Vec3_xy x y in
      match prev_point with
      | None =>
          modify (fun p => mkPath point (_commands p)) ;;;
          polyline_loop rest (Some point) bulge
      | Some prev =>
          (if truthy prev_bulge
           then bulge_to prev point prev_bulge
           else line_to point) ;;;
          polyline_loop rest (Some point) bulge
      end
  end.

Definition add_2d_polyline (points : list (float * float * float))
  (close_ : bool) (ocs : OCS) (elevation : float) : M unit :=
  prev_bulge <- polyline_loop points None fzero ;;
  s <- gets start ;;
  e <- gets end_ ;;
  (if close_ && negb (isclose s e None)
   then (if truthy prev_bulge
         then bulge_to e s prev_bulge
         else line_to s)
   else ret tt) ;;;
  if ocs_transform ocs || truthy elevation
  then _to_wcs ocs elevation
  else ret tt.

(** *** Ellipses and splines *)

Definition add_ellipse (ellipse : ConstructionEllipse) (segments : Z)
  (reset : bool) : M unit :=
  if abs_lt (param_span ellipse) tol_1e_9 then ret tt
  else
    n <- gets len ;;
    (if (n =? 0)%nat && reset
     then set_start (start_point ellipse) else ret tt) ;;;
    add_curves4 (cubic_bezier_from_ellipse ellipse segments).

Definition add_spline (spline : BSpline) (level : Z) (reset : bool) : M unit :=
  n <- gets len ;;
  (if (n =? 0)%nat && reset
   then set_start (spline_point0 spline) else ret tt) ;;;
  let curves :=
    if (spline_degree spline =? 3)%Z && negb (is_rational spline)
       && is_clamped spline
    then map mkBezier4P (bezier_decomposition spline)
    else cubic_bezier_approximation spline level in
  add_curves4 curves.

(** *** Sampling *)

(** [pts = iter(g); next(pts); yield from pts] *)
Definition skip_first (g : Gen Vec3) : Gen Vec3 :=
  match g with
  | ([], None) => ([], Some RuntimeError_StopIteration)
  | ([], Some e) => ([], Some e)
  | (_ :: pts, r) => (pts, r)
  end.

(** what one pass of the loop body of [_approximate] yields *)
Definition approximate_cmd
  (approx_curve3 : Vec3 -> Vec3 -> Vec3 -> Gen Vec3)
  (approx_curve4 : Vec3 -> Vec3 -> Vec3 -> Vec3 -> Gen Vec3)
  (start : Vec3) (cmd : PathElement) : Gen Vec3 :=
  let end_location := cmd_end cmd in
  match cmd with
  | LineTo _ => ([end_location], None)
  | Curve3To _ ctrl => skip_first (approx_curve3 start ctrl end_location)
  | Curve4To _ ctrl1 ctrl2 =>
      skip_first (approx_curve4 start ctrl1 ctrl2 end_location)
  | External _ => ([], Some (ValueError_invalid_command (cmd_type cmd)))
  end.

Fixpoint approximate_loop
  (approx_curve3 : Vec3 -> Vec3 -> Vec3 -> Gen Vec3)
  (approx_curve4 : Vec3 -> Vec3 -> Vec3 -> Vec3 -> Gen Vec3)
  (start : Vec3) (cmds : list PathElement) : Gen Vec3 :=
  match cmds with
  | [] => ([], None)
  | cmd :: rest =>
      match approximate_cmd approx_curve3 approx_curve4 start cmd with
      | (pts, Some e) => (pts, Some e)
      | (pts, None) =>
          let '(more, r) :=
            approximate_loop approx_curve3 approx_curve4 (cmd_end cmd) rest in
          (pts ++ more, r)
      end
  end.

Definition _approximate
  (approx_curve3 : Vec3 -> Vec3 -> Vec3 -> Gen Vec3)
  (approx_curve4 : Vec3 -> Vec3 -> Vec3 -> Vec3 -> Gen Vec3)
  (self : Path) : Gen Vec3 :=
  match _commands self with
  | [] => ([], None)
  | _ :: _ =>
      let '(pts, r) := approximate_loop approx_curve3 approx_curve4
                                        (_start self) (_commands self) in
      (_start self :: pts, r)
  end.

(** the local functions of [approximate] and [flattening] *)
Definition approximate_curve3 (segments : Z) (s c e : Vec3) : Gen Vec3 :=
  bezier3_approximate (mkBezier3P (s, c, e)) segments.
Definition approximate_curve4 (segments : Z) (s c1 c2 e : Vec3) : Gen Vec3 :=
  bezier4_approximate (mkBezier4P (s, c1, c2, e)) segments.
Definition flattening_curve3 (distance : float) (segments : Z)
  (s c e : Vec3) : Gen Vec3 :=
  bezier3_flattening (mkBezier3P (s, c, e)) distance segments.
Definition flattening_curve4 (distance : float) (segments : Z)
  (s c1 c2 e : Vec3) : Gen Vec3 :=
  bezier4_flattening (mkBezier4P (s, c1, c2, e)) distance segments.

Definition approximate (segments : Z) (self : Path) : Gen Vec3 :=
  _approximate (approximate_curve3 segments) (approximate_curve4 segments)
               self.

Definition flattening (distance : float) (segments : Z) (self : Path)
  : Gen Vec3 :=
  _approximate (flattening_curve3 distance segments)
               (flattening_curve4 distance segments) self.

End PathModel.

(* ------------------------------------------------------------------ *)
(** ** Specification-level definitions
    The vocabulary of the statements below: what the specification says a
    chain of curves, a reversed path, a sampled path and an API-built path
    are, written independently of the methods. *)

Section PathSpec.
Context {float : Type} {FO : FloatOps float} {MK : MathKernel float}.

Local Abbreviation Vec3 := (Vec3 float).
Local Abbreviation Path := (@Path float).
Local Abbreviation PathElement := (@PathElement float).
Local Abbreviation M := (@M float).

(** The chain rule in the specification's words: walking the curves with a
    running end point, a curve whose start is not close to the running end
    is preceded by a connecting line, and the curve itself becomes one
    command; the running end moves to the curve's end. *)
Fixpoint chain4 (running : Vec3) (curves : list (Bezier4P float))
  : list PathElement :=
  match curves with
  | [] => []
  | curve :: rest =>
      let '(s, c1, c2, e) := control_points4 curve in
      (if isclose s running (Some tol_1e_9) then [] else [LineTo s])
      ++ Curve4To e c1 c2 :: chain4 e rest
  end.

Fixpoint chain3 (running : Vec3) (curves : list (Bezier3P float))
  : list PathElement :=
  match curves with
  | [] => []
  | curve :: rest =>
      let '(s, c, e) := control_points3 curve in
      (if isclose s running (Some tol_1e_9) then [] else [LineTo s])
      ++ Curve3To e c :: chain3 e rest
  end.

(** the whole list reversed: each curve's points, then the list order *)
Definition reversed_chain4 (curves : list (Bezier4P float)) :=
  rev (map reverse4 curves).
Definition reversed_chain3 (curves : list (Bezier3P float)) :=
  rev (map reverse3 curves).

(** A command reversed: it now ends where its predecessor ended.
    [External] elements match no branch of [reversed] and are dropped. *)
Definition reversed_cmd (prev_end : Vec3) (cmd : PathElement)
  : list PathElement :=
  match cmd with
  | LineTo _ => [LineTo prev_end]
  | Curve3To _ ctrl => [Curve3To prev_end ctrl]
  | Curve4To _ ctrl1 ctrl2 => [Curve4To prev_end ctrl2 ctrl1]
  | External _ => []
  end.

(** The commands in reversed traversal order; [prev_end] is the end point
    of the command before the head of the list, the path start at first. *)
Fixpoint reversed_commands (prev_end : Vec3) (cmds : list PathElement)
  : list PathElement :=
  match cmds with
  | [] => []
  | cmd :: rest =>
      reversed_commands (cmd_end cmd) rest ++ reversed_cmd prev_end cmd
  end.

(** only LineTo, Curve3To and Curve4To commands *)
Definition well_typed (cmds : list PathElement) : bool :=
  forallb supported cmds.

(** [m] keeps the commands it finds as a prefix of the commands it leaves,
    and keeps the start point of a path that already has a command. *)
Definition append_only (m : M unit) : Prop :=
  (forall P : Path, exists suffix,
      _commands (exec m P) = _commands P ++ suffix)
  /\ (forall (s : Vec3) (c : PathElement) (cs : list PathElement),
         _start (exec m (mkPath s (c :: cs))) = s).

(** [m] never writes the start point and raises nothing but what [E] allows *)
Definition start_stable (E : exn -> Prop) {A} (m : M A) : Prop :=
  forall P : Path,
    _start (snd (m P)) = _start P
    /\ (forall e, fst (m P) = inl e -> E e).

Definition only_IndexError (e : exn) : Prop := e = IndexError.
Definition only_AttributeError (e : exn) : Prop := e = AttributeError.

(** the closing step and the final frame change of [add_2d_polyline] *)
Definition closing_step (close_ : bool) (prev_bulge : float) : M unit :=
  bind (gets start) (fun s =>
  bind (gets end_) (fun e =>
    if close_ && negb (isclose s e None)
    then (if truthy prev_bulge then bulge_to e s prev_bulge else line_to s)
    else ret tt)).

Definition frame_step (ocs : OCS) (elevation : float) : M unit :=
  if ocs_transform ocs || truthy elevation
  then _to_wcs ocs elevation else ret tt.

(** A sampler run that ends normally, with at least two points, the last
    of them [e]. *)
Definition reaches_end (g : Gen Vec3) (e : Vec3) : Prop :=
  exists first mid, g = (first :: mid ++ [e], None).

(** What path.py relies on from the Bezier samplers of ezdxf.math: for a
    segment count of at least 1 (and a positive distance) they yield the
    curve from its first to its last control point. *)
Definition samplers_reach_end : Prop :=
  (forall b n, (1 <= n)%Z ->
      reaches_end (bezier3_approximate b n) (last_point3 b))
  /\ (forall b n, (1 <= n)%Z ->
      reaches_end (bezier4_approximate b n) (last_point4 b))
  /\ (forall b d n, is_pos d = true -> (1 <= n)%Z ->
      reaches_end (bezier3_flattening b d n) (last_point3 b))
  /\ (forall b d n, is_pos d = true -> (1 <= n)%Z ->
      reaches_end (bezier4_flattening b d n) (last_point4 b)).

(** The points of one command in the specification's words: a line gives
    its end point; a curve gives its samples without the first one. *)
Definition joint_points
  (approx_curve3 : Vec3 -> Vec3 -> Vec3 -> Gen Vec3)
  (approx_curve4 : Vec3 -> Vec3 -> Vec3 -> Vec3 -> Gen Vec3)
  (running : Vec3) (cmd : PathElement) : list Vec3 :=
  match cmd with
  | LineTo e => [e]
  | Curve3To e ctrl => tl (fst (approx_curve3 running ctrl e))
  | Curve4To e ctrl1 ctrl2 => tl (fst (approx_curve4 running ctrl1 ctrl2 e))
  | External _ => []
  end.

Fixpoint sampled
  (approx_curve3 : Vec3 -> Vec3 -> Vec3 -> Gen Vec3)
  (approx_curve4 : Vec3 -> Vec3 -> Vec3 -> Vec3 -> Gen Vec3)
  (running : Vec3) (cmds : list PathElement) : list Vec3 :=
  match cmds with
  | [] => []
  | cmd :: rest =>
      joint_points approx_curve3 approx_curve4 running cmd
      ++ sampled approx_curve3 approx_curve4 (cmd_end cmd) rest
  end.

(** the result of a traversal that went well *)
Definition traverses
  (approx_curve3 : Vec3 -> Vec3 -> Vec3 -> Gen Vec3)
  (approx_curve4 : Vec3 -> Vec3 -> Vec3 -> Vec3 -> Gen Vec3)
  (P : Path) (g : Gen Vec3) : Prop :=
  match _commands P with
  | [] => g = ([], None)
  | _ :: _ =>
      g = (start P :: sampled approx_curve3 approx_curve4 (start P)
                              (_commands P), None)
      /\ exists mid, fst g = start P :: mid ++ [end_ P]
  end.

(** the calls of the public mutation API *)
Inductive Mutation : Type :=
| call_line_to (location : Vec3)
| call_curve3_to (location ctrl : Vec3)
| call_curve4_to (location ctrl1 ctrl2 : Vec3)
| call_close
| call_add_curves3 (curves : list (Bezier3P float))
| call_add_curves4 (curves : list (Bezier4P float))
| call_add_2d_polyline (points : list (float * float * float))
    (close_ : bool) (ocs : OCS) (elevation : float)
| call_add_ellipse (ellipse : ConstructionEllipse) (segments : Z)
    (reset : bool)
| call_add_spline (spline : BSpline) (level : Z) (reset : bool).

Definition run_mutation (m : Mutation) : M unit :=
  match m with
  | call_line_to location => line_to location
  | call_curve3_to location ctrl => curve3_to location ctrl
  | call_curve4_to location ctrl1 ctrl2 => curve4_to location ctrl1 ctrl2
  | call_close => close
  | call_add_curves3 curves => add_curves3 curves
  | call_add_curves4 curves => add_curves4 curves
  | call_add_2d_polyline points close_ ocs elevation =>
      add_2d_polyline points close_ ocs elevation
  | call_add_ellipse ellipse segments reset =>
      add_ellipse ellipse segments reset
  | call_add_spline spline level reset => add_spline spline level reset
  end.

(** A path is built through the API when it comes from the constructor or
    from [from_vertices], followed by any number of mutation calls; a call
    that raises leaves the path it had reached. *)
Inductive api_built : Path -> Prop :=
| built_init (start : Vec3) : api_built (Path_init start)
| built_from_vertices (vertices : list Vec3) (close_ : bool) :
    api_built (from_vertices vertices close_)
| built_call (P : Path) (m : Mutation) :
    api_built P -> api_built (exec (run_mutation m) P).

(** the path holds a command whose kind is none of LINE_TO, CURVE3_TO,
    CURVE4_TO *)
Definition holds_unsupported (P : Path) : Prop :=
  exists cmd, In cmd (_commands P)
              /\ cmd_type cmd <> LINE_TO /\ cmd_type cmd <> CURVE3_TO
              /\ cmd_type cmd <> CURVE4_TO.

(** the traversal ended with ValueError(f'Invalid command: {cmd.type}') *)
Definition raises_invalid_command (g : Gen Vec3) : Prop :=
  exists t, snd g = Some (ValueError_invalid_command t).

(** [m] keeps a path of supported commands a path of supported commands *)
Definition keeps_typed {A} (m : M A) : Prop :=
  forall P : Path,
    well_typed (_commands P) = true ->
    well_typed (_commands (snd (m P))) = true.

End PathSpec.

(* ------------------------------------------------------------------ *)
(** ** More of the Path class: queries, orientation, transform *)

(** further consumed primitives of ezdxf.math: [Matrix44] and the
    orientation test of a vertex sequence *)
Class AffineKernel (float : Type) := {
  Matrix44 : Type;
  (** [m.transform(v)] *)
  m44_transform : Matrix44 -> Vec3 float -> Vec3 float;
  (** [m.transform_vertices(vs)], the vertices it yields *)
  m44_transform_vertices : Matrix44 -> list (Vec3 float) -> list (Vec3 float);
  (** [ezdxf.math.has_clockwise_orientation(vertices)] *)
  math_has_clockwise_orientation : list (Vec3 float) -> exn + bool;
}.

(** what [transform] can end with: its own ValueError, or a tuple
    assignment that got another number of values than it names *)
Inductive transform_exn : Type :=
| Invalid_command (t : Command)
| Unpack_mismatch (expected got : nat).

Section PathModelMore.
Context {float : Type} {FO : FloatOps float} {MK : MathKernel float}
        {AK : AffineKernel float}.

Local Abbreviation Vec3 := (Vec3 float).
Local Abbreviation Path := (@Path float).
Local Abbreviation PathElement := (@PathElement float).

(** [a == b] on members of the IntEnum *)
Definition Command_eqb (a b : Command) : bool :=
  (Command_value a =? Command_value b)%Z.

Definition AnyCurve : list Command := [CURVE3_TO; CURVE4_TO].

(** [__copy__] / [clone] : a new path on a copy of the command list *)
Definition clone (self : Path) : Path :=
  mkPath (_start self) (_commands self).

Definition has_lines (self : Path) : bool :=
  existsb (fun cmd => Command_eqb (cmd_type cmd) LINE_TO) (_commands self).

Definition has_curves (self : Path) : bool :=
  existsb (fun cmd => existsb (Command_eqb (cmd_type cmd)) AnyCurve)
          (_commands self).

(** what [control_vertices] yields for one command *)
Definition control_vertices_cmd (cmd : PathElement) : list Vec3 :=
  match cmd with
  | LineTo e => [e]
  | Curve3To e ctrl => [ctrl; e]
  | Curve4To e ctrl1 ctrl2 => [ctrl1; ctrl2; e]
  | External _ => []
  end.

Definition control_vertices (self : Path) : list Vec3 :=
  match len self with
  | O => []
  | S _ => start self :: flat_map control_vertices_cmd (_commands self)
  end.

(** the method [has_clockwise_orientation] *)
Definition has_clockwise_orientation (self : Path) : exn + bool :=
  math_has_clockwise_orientation (control_vertices self).

Definition clockwise (self : Path) : exn + Path :=
  match has_clockwise_orientation self with
  | inl e => inl e
  | inr true => inr (clone self)
  | inr false => reversed self
  end.

Definition counter_clockwise (self : Path) : exn + Path :=
  match has_clockwise_orientation self with
  | inl e => inl e
  | inr true => reversed self
  | inr false => inr (clone self)
  end.

(** the loop of [transform], run on the path under construction *)
Fixpoint transform_loop (m : Matrix44) (cmds : list PathElement)
  (new_path : Path) : transform_exn + Path :=
  match cmds with
  | [] => inr new_path
  | cmd :: rest =>
      match cmd with
      | LineTo e =>
          transform_loop m rest (exec (line_to (m44_transform m e)) new_path)
      | Curve3To e ctrl =>
          match m44_transform_vertices m [e; ctrl] with
          | [loc; ctrl'] =>
              transform_loop m rest (exec (curve3_to loc ctrl') new_path)
          | vs => inl (Unpack_mismatch 2 (length vs))
          end
      | Curve4To e ctrl1 ctrl2 =>
          match m44_transform_vertices m [e; ctrl1; ctrl2] with
          | [loc; ctrl1'; ctrl2'] =>
              transform_loop m rest
                (exec (curve4_to loc ctrl1' ctrl2') new_path)
          | vs => inl (Unpack_mismatch 3 (length vs))
          end
      | External _ => inl (Invalid_command (cmd_type cmd))
      end
  end.

Definition transform (m : Matrix44) (self : Path) : transform_exn + Path :=
  transform_loop m (_commands self) (Path_init (m44_transform m (start self))).

End PathModelMore.

(* ------------------------------------------------------------------ *)
(** ** Vocabulary of the further statements *)

Section PathSpecMore.
Context {float : Type} {FO : FloatOps float} {MK : MathKernel float}
        {AK : AffineKernel float}.

Local Abbreviation Vec3 := (Vec3 float).
Local Abbreviation Path := (@Path float).
Local Abbreviation PathElement := (@PathElement float).

(** a command with every point of it sent through [f] *)
Definition map_cmd (f : Vec3 -> Vec3) (cmd : PathElement) : PathElement :=
  match cmd with
  | LineTo e => LineTo (f e)
  | Curve3To e ctrl => Curve3To (f e) (f ctrl)
  | Curve4To e ctrl1 ctrl2 => Curve4To (f e) (f ctrl1) (f ctrl2)
  | External e => External (f e)
  end.

Definition map_path (f : Vec3 -> Vec3) (P : Path) : Path :=
  mkPath (f (_start P)) (map (map_cmd f) (_commands P)).

(** [transform_vertices] yields the [transform] of each vertex, in order *)
Definition transform_vertices_pointwise (m : Matrix44) : Prop :=
  forall vs, m44_transform_vertices m vs = map (m44_transform m) vs.

(** the (x, y) points of polyline vertices *)
Definition polyline_points (points : list (float * float * float))
  : list Vec3 :=
  map (fun '(x, y, _) => Vec3_xy x y) points.

(** every bulge is below the 1e-6 threshold *)
Definition straight (points : list (float * float * float)) : Prop :=
  Forall (fun '(_, _, bulge) => abs_lt bulge tol_1e_6 = true) points.

End PathSpecMore.

(* ------------------------------------------------------------------ *)
(** ** ezdxf.lldxf.repair : tag-level repairs

    The functions of [src/ezdxf/lldxf/repair.py] that work on tag lists.
    A [DXFTag] is the pair (code, value); from [simple_tagger] the code is
    an int and the value a string. *)

From Stdlib Require String Ascii.
From Stdlib Require Import Permutation.
Import String.StringSyntax.
Delimit Scope string_scope with string.

Definition DXFTag : Type := (Z * String.string)%type.

(** [a == b] on tags *)
Definition tag_eqb (a b : DXFTag) : bool :=
  (fst a =? fst b)%Z && String.eqb (snd a) (snd b).

(** [a <= b] on tags: tuples compare by code, then by value *)
Definition tag_leb (a b : DXFTag) : bool :=
  if (fst a <? fst b)%Z then true
  else if (fst a =? fst b)%Z then String.leb (snd a) (snd b)
  else false.

Inductive repair_exn : Type :=
| Repair_IndexError      (* subscript out of range *)
| Repair_ValueError      (* list.index(x): x not in list *)
| Repair_KeyError.       (* COORDINATE_FIXING_TOOLBOX[entity] *)

(** [list.sort()] : the sorted permutation of the list *)
Fixpoint insert_tag (t : DXFTag) (l : list DXFTag) : list DXFTag :=
  match l with
  | [] => [t]
  | h :: rest => if tag_leb t h then t :: l else h :: insert_tag t rest
  end.

Definition sort_tags (l : list DXFTag) : list DXFTag :=
  fold_right insert_tag [] l.

(** [l.index(x)] *)
Fixpoint list_index (x : DXFTag) (l : list DXFTag) : option nat :=
  match l with
  | [] => None
  | h :: rest =>
      if tag_eqb h x then Some O else option_map S (list_index x rest)
  end.

(** [l[index:index] = items] *)
Definition slice_insert (index : nat) (items l : list DXFTag)
  : list DXFTag :=
  firstn index l ++ items ++ skipn index l.

Definition LINE_COORD_CODES : list Z := [10; 11; 20; 21; 30; 31]%Z.

(** [tag.code in LINE_COORD_CODES] *)
Definition is_line_coord (tag : DXFTag) : bool :=
  existsb (Z.eqb (fst tag)) LINE_COORD_CODES.

Definition fix_line_coordinate_order (tags : list DXFTag)
  : repair_exn + list DXFTag :=
  match tags with
  | [] => inl Repair_IndexError
  | tag0 :: _ =>
      let entity := snd tag0 in
      if negb (String.eqb entity "LINE"%string) then inr tags
      else
        let coordinates := filter is_line_coord tags in
        if negb ((length coordinates =? 4)%nat || (length coordinates =? 6)%nat)
        then inr tags
        else
          match coordinates with
          | [] => inl Repair_IndexError
          | first :: _ =>
              match list_index first tags with
              | None => inl Repair_ValueError
              | Some index =>
                  let coordinates := sort_tags coordinates in
                  let fixed_tags :=
                    filter (fun tag => negb (is_line_coord tag)) tags in
                  match coordinates with
                  | [c0; c1; c2; c3] =>
                      inr (slice_insert index [c0; c2; c1; c3] fixed_tags)
                  | [c0; c1; c2; c3; c4; c5] =>
                      inr (slice_insert index [c0; c2; c4; c1; c3; c5]
                                        fixed_tags)
                  | _ => inl Repair_IndexError
                  end
              end
          end
  end.

(** [COORDINATE_FIXING_TOOLBOX] : the dict with the one key 'LINE' *)
Definition COORDINATE_FIXING_TOOLBOX (entity : String.string)
  : option (list DXFTag -> repair_exn + list DXFTag) :=
  if String.eqb entity "LINE"%string then Some fix_line_coordinate_order
  else None.

(** One pass of the loop of [fix_coordinates]: the tags it yields and the
    collector it leaves. *)
Definition fix_coordinates_step (collector : option (list DXFTag))
  (tag : DXFTag)
  : repair_exn + (list DXFTag * option (list DXFTag)) :=
  if (fst tag =? 0)%Z then
    let flushed :=
      match collector with
      | None => inr []
      | Some [] => inl Repair_IndexError
      | Some ((tag0 :: _) as collected) =>
          match COORDINATE_FIXING_TOOLBOX (snd tag0) with
          | None => inl Repair_KeyError
          | Some fixer => fixer collected
          end
      end in
    match flushed with
    | inl e => inl e
    | inr out =>
        match COORDINATE_FIXING_TOOLBOX (snd tag) with
        | Some _ => inr (out, Some [tag])
        | None => inr (out ++ [tag], None)
        end
    end
  else
    match collector with
    | Some collected => inr ([], Some (collected ++ [tag]))
    | None => inr ([tag], None)
    end.

(** The loop over the tags of [simple_tagger(stream)]: the tags yielded so
    far, the exception that ended the generator if one did, and the
    collector at that point. *)
Fixpoint fix_coordinates_loop (tags : list DXFTag)
  (collector : option (list DXFTag))
  : list DXFTag * option repair_exn * option (list DXFTag) :=
  match tags with
  | [] => ([], None, collector)
  | tag :: rest =>
      match fix_coordinates_step collector tag with
      | inl e => ([], Some e, collector)
      | inr (out, collector') =>
          let '(more, r, final) := fix_coordinates_loop rest collector' in
          (out ++ more, r, final)
      end
  end.

(** [fix_coordinates(stream)] on the tags of the stream: what it yields,
    and the exception it ends with, if any *)
Definition fix_coordinates (tags : list DXFTag)
  : list DXFTag * option repair_exn :=
  fst (fix_coordinates_loop tags None).


(** the body of the loop of [put_handles_into_entity_tags], on the
    [noclass] tags of one entity *)
Definition put_handle (handle : String.string) (noclass : list DXFTag)
  : repair_exn + list DXFTag :=
  match noclass with
  | [] => inl Repair_IndexError
  | tag0 :: rest =>
      let is_not_dimstyle := negb (tag_eqb tag0 (0%Z, "DIMSTYLE"%string)) in
      let handle_code := if is_not_dimstyle then 5%Z else 105%Z in
      if existsb (fun tag => (fst tag =? handle_code)%Z) noclass
      then inr noclass
      else inr (tag0 :: (handle_code, handle) :: rest)
  end.

(** *** Vocabulary of the statements on tag streams *)

(** the tag that starts a LINE entity *)
Definition LINE_start : DXFTag := (0%Z, "LINE"%string).

(** a code-0 tag that starts an entity of the toolbox *)
Definition opens_line (tag : DXFTag) : bool :=
  (fst tag =? 0)%Z && String.eqb (snd tag) "LINE"%string.

(** the tags held back in the collector *)
Definition pending (collector : option (list DXFTag)) : list DXFTag :=
  match collector with
  | Some collected => collected
  | None => []
  end.

(** the collector, when there is one, starts with the tag (0, 'LINE') *)
Definition collecting_line (collector : option (list DXFTag)) : Prop :=
  match collector with
  | Some collected => exists body, collected = (0%Z, "LINE"%string) :: body
  | None => True
  end.

(** no tag of the stream starts a LINE entity *)
Definition no_line (tags : list DXFTag) : bool :=
  forallb (fun tag => negb (opens_line tag)) tags.

(** no tag of the list has code 0 *)
Definition no_entity_start (tags : list DXFTag) : bool :=
  forallb (fun tag => negb (fst tag =? 0)%Z) tags.

(* ------------------------------------------------------------------ *)
(** ** A rational kernel
    Exact arithmetic on [Q] in place of floats: an instance of the consumed
    interface on which the model runs.  Point comparison follows
    [math.isclose] axis by axis; the samplers take uniform parameter steps;
    arcs and splines are given by simple exact stand-ins. *)

Definition Qmax2 (a b : Q) : Q := if Qle_bool a b then b else a.

#[export] Instance Q_float : FloatOps Q := {|
  fzero := 0;
  truthy := fun x => negb (Qeq_bool x 0);
  abs_lt := fun x bound => negb (Qle_bool bound (Qabs x));
  is_pos := fun x => negb (Qle_bool x 0);
|}.

Definition rel_tol : Q := 1 # 1000000000.
Definition default_abs_tol : Q := 1 # 1000000000000.

(** [math.isclose(a, b, abs_tol=t)] *)
Definition Q_isclose (a b t : Q) : bool :=
  Qle_bool (Qabs (a - b)) (Qmax2 (rel_tol * Qmax2 (Qabs a) (Qabs b)) t).

Definition Vec3_isclose (a b : Vec3 Q) (abs_tol : option Q) : bool :=
  let t := match abs_tol with Some t => t | None => default_abs_tol end in
  Q_isclose (vx a) (vx b) t && Q_isclose (vy a) (vy b) t
  && Q_isclose (vz a) (vz b) t.

Definition Vec3_add (a b : Vec3 Q) : Vec3 Q :=
  mkVec3 (vx a + vx b) (vy a + vy b) (vz a + vz b).
Definition Vec3_scale (k : Q) (a : Vec3 Q) : Vec3 Q :=
  mkVec3 (k * vx a) (k * vy a) (k * vz a).

(** Bernstein form of a quadratic and of a cubic curve *)
Definition Bezier3P_point (b : Bezier3P Q) (t : Q) : Vec3 Q :=
  let '(p0, p1, p2) := control_points3 b in
  let u := 1 - t in
  Vec3_add (Vec3_scale (u * u) p0)
           (Vec3_add (Vec3_scale (2 * u * t) p1) (Vec3_scale (t * t) p2)).

Definition Bezier4P_point (b : Bezier4P Q) (t : Q) : Vec3 Q :=
  let '(p0, p1, p2, p3) := control_points4 b in
  let u := 1 - t in
  Vec3_add (Vec3_add (Vec3_scale (u * u * u) p0)
                     (Vec3_scale (3 * u * u * t) p1))
           (Vec3_add (Vec3_scale (3 * u * t * t) p2)
                     (Vec3_scale (t * t * t) p3)).

(** [n] uniform steps from [first] to [last]; a count below 1 is refused *)
Definition uniform_samples (point : Q -> Vec3 Q) (first last : Vec3 Q)
  (n : Z) : Gen (Vec3 Q) :=
  if (n <? 1)%Z then ([], Some (PrimitiveError n))
  else (first
          :: map (fun k => point (inject_Z (Z.of_nat k) / inject_Z n))
                 (seq 1 (Z.to_nat n - 1))
          ++ [last], None).

(** a frame is the world frame or the frame of extrusion (0, 0, -1) *)
Inductive Q_OCS : Type := world_frame | mirrored_frame.

Definition Q_to_wcs (ocs : Q_OCS) (v : Vec3 Q) : Vec3 Q :=
  match ocs with
  | world_frame => v
  | mirrored_frame => mkVec3 (- vx v) (vy v) (- vz v)
  end.

(** a half circle over a horizontal diameter *)
Record Q_arc : Type := mkQ_arc { arc_center : Vec3 Q; arc_radius : Q }.

Definition Q_pi : Q := 355 # 113.

Definition Q_arc_curves (a : Q_arc) : list (Bezier4P Q) :=
  let c := arc_center a in
  let r := arc_radius a in
  let lift := (4 # 3) * r in
  [mkBezier4P (mkVec3 (vx c - r) (vy c) (vz c),
               mkVec3 (vx c - r) (vy c + lift) (vz c),
               mkVec3 (vx c + r) (vy c + lift) (vz c),
               mkVec3 (vx c + r) (vy c) (vz c))].

Definition Q_arc_start (a : Q_arc) : Vec3 Q :=
  let c := arc_center a in
  mkVec3 (vx c - arc_radius a) (vy c) (vz c).

Definition Q_bulge_to_arc (p1 p2 : Vec3 Q) (bulge : Q)
  : Vec3 Q * Q * Q * Q :=
  (Vec3_scale (1 # 2) (Vec3_add p1 p2), 0, Q_pi,
   Qabs (vx p2 - vx p1) * (1 # 2)).

#[export] Instance Q_kernel : MathKernel Q := {|
  isclose := Vec3_isclose;
  Z_AXIS := mkVec3 0 0 1;
  degrees := fun x => x * 180 / Q_pi;
  OCS := Q_OCS;
  ocs_transform := fun ocs =>
    match ocs with world_frame => false | mirrored_frame => true end;
  ocs_to_wcs := Q_to_wcs;
  ConstructionEllipse := Q_arc;
  param_span := fun _ => Q_pi;
  start_point := Q_arc_start;
  from_arc := fun center radius _ _ _ => mkQ_arc center radius;
  bulge_to_arc := Q_bulge_to_arc;
  cubic_bezier_from_ellipse := fun a _ => Q_arc_curves a;
  BSpline := list (Vec3 Q * Vec3 Q * Vec3 Q * Vec3 Q);
  spline_point0 := fun pieces =>
    match pieces with (p0, _, _, _) :: _ => p0 | [] => NULLVEC end;
  spline_degree := fun _ => 3%Z;
  is_rational := fun _ => false;
  is_clamped := fun _ => true;
  bezier_decomposition := fun pieces => pieces;
  cubic_bezier_approximation := fun pieces _ => map mkBezier4P pieces;
  bezier3_approximate := fun b n =>
    uniform_samples (Bezier3P_point b) (first_point3 b) (last_point3 b) n;
  bezier4_approximate := fun b n =>
    uniform_samples (Bezier4P_point b) (first_point4 b) (last_point4 b) n;
  bezier3_flattening := fun b d n =>
    if negb (Qle_bool d 0)
    then uniform_samples (Bezier3P_point b) (first_point3 b) (last_point3 b) n
    else ([], Some (PrimitiveError 0));
  bezier4_flattening := fun b d n =>
    if negb (Qle_bool d 0)
    then uniform_samples (Bezier4P_point b) (first_point4 b) (last_point4 b) n
    else ([], Some (PrimitiveError 0));
|}.

Definition QPath : Type := @Path Q.
Definition pt (x y z : Z) : Vec3 Q :=
  mkVec3 (inject_Z x) (inject_Z y) (inject_Z z).

Definition origin : Vec3 Q := pt 0 0 0.

(** start (0,0,0), a line to (1,0,0), a cubic curve to (2,1,0) *)
Definition demo_path : QPath :=
  mkPath origin [LineTo (pt 1 0 0); Curve4To (pt 2 1 0) (pt 1 1 0) (pt 2 0 0)].

(** a path without commands whose start is not the origin *)
Definition lone_start : QPath := mkPath (pt 1 0 0) [].

(** a path holding an element of kind START_PATH *)
Definition foreign_path : QPath :=
  mkPath origin [LineTo (pt 1 0 0); External (pt 2 0 0); LineTo (pt 3 0 0)].

(** the calls that build the triangle of scenario 1 and close it *)
Definition triangle_calls : list (@Mutation Q Q_float Q_kernel) :=
  [call_line_to (pt 1 0 0); call_line_to (pt 1 1 0); call_close].

Definition triangle : QPath :=
  fold_left (fun P m => exec (run_mutation m) P) triangle_calls
            (Path_init origin).

(** *** Rational stand-ins for [Matrix44] and the orientation test *)

(** a uniform scaling followed by a translation *)
Record Q_matrix : Type := mkQ_matrix { m_scale : Q; m_shift : Vec3 Q }.

Definition Q_transform (m : Q_matrix) (v : Vec3 Q) : Vec3 Q :=
  Vec3_add (Vec3_scale (m_scale m) v) (m_shift m).

(** the terms [(p2.x - p1.x) * (p2.y + p1.y)] over consecutive vertices *)
Fixpoint shoelace (vs : list (Vec3 Q)) : Q :=
  match vs with
  | p1 :: (p2 :: _) as rest =>
      (vx p2 - vx p1) * (vy p2 + vy p1) + shoelace rest
  | _ => 0
  end.

(** the polygon is closed first; fewer than 3 vertices are refused *)
Definition Q_has_clockwise_orientation (vs : list (Vec3 Q)) : exn + bool :=
  match vs with
  | v0 :: _ :: _ :: _ =>
      let closed := if Vec3_isclose v0 (last vs v0) None
                    then vs else vs ++ [v0] in
      inr (negb (Qle_bool (shoelace closed) 0))
  | _ => inl (PrimitiveError 3)
  end.

#[export] Instance Q_affine : AffineKernel Q := {|
  Matrix44 := Q_matrix;
  m44_transform := Q_transform;
  m44_transform_vertices := fun m vs => map (Q_transform m) vs;
  math_has_clockwise_orientation := Q_has_clockwise_orientation;
|}.

(** the triangle (0,0) (1,0) (1,1), closed, counter-clockwise *)
Definition closed_triangle : QPath :=
  mkPath origin [LineTo (pt 1 0 0); LineTo (pt 1 1 0); LineTo origin].

(** the two commands of [demo_path] *)
Definition demo_line : @PathElement Q := LineTo (pt 1 0 0).
Definition demo_curve : @PathElement Q :=
  Curve4To (pt 2 1 0) (pt 1 1 0) (pt 2 0 0).

(** scaling by 2, then moving by (1, 0, 0) *)
Definition demo_matrix : Q_matrix := mkQ_matrix 2 (pt 1 0 0).

(** three polyline vertices without bulges *)
Definition straight_points : list (Q * Q * Q) :=
  [(0, 0, 0); (1, 0, 0); (1, 1, 0)].


(* ------------------------------------------------------------------ *)
(** ** Properties of the Path class, for every geometry kernel *)

Section PathTheory.
Context {float : Type} {FO : FloatOps float} {MK : MathKernel float}.

Local Abbreviation Vec3 := (Vec3 float).
Local Abbreviation Path := (@Path float).
Local Abbreviation PathElement := (@PathElement float).
Local Abbreviation M := (@M float).

Lemma path_eta (p : Path) : mkPath (_start p) (_commands p) = p.
Proof. destruct p; reflexivity. Qed.

Lemma end_snoc (s : Vec3) (cs : list PathElement) (c : PathElement) :
  end_ (mkPath s (cs ++ [c])) = cmd_end c.
Proof.
  unfold end_; simpl.
  destruct cs as [|c0 cs]; simpl; [reflexivity|].
  now rewrite last_last.
Qed.

(** C5. [end] is [start] for a path without commands, and the end point of
    the last command otherwise. *)
Theorem end_consistency :
  (forall s : Vec3, end_ (mkPath s []) = s) /\
  (forall (s : Vec3) (cs : list PathElement) (c : PathElement),
      end_ (mkPath s (cs ++ [c])) = cmd_end c).
Proof.
  split; [reflexivity|]. intros; apply end_snoc.
Qed.

(** C6. Assigning [start] succeeds on a path without commands and stores the
    location; on a path with at least one command it raises
    ValueError('Requires an empty path.') and the path is left as it was. *)
Theorem start_setter_guard :
  (forall s location : Vec3,
      set_start location (mkPath s []) = (inr tt, mkPath location [])) /\
  (forall (s location : Vec3) (c : PathElement) (cs : list PathElement),
      set_start location (mkPath s (c :: cs))
      = (inl ValueError_requires_empty_path, mkPath s (c :: cs))).
Proof.
  split; intros; reflexivity.
Qed.

Lemma close_run (P : Path) :
  close P = (inr tt, mkPath (_start P)
                       (_commands P ++
                        (if is_closed P then [] else [LineTo (start P)]))).
Proof.
  unfold close, bind, gets, line_to, append, modify, ret.
  destruct (is_closed P); simpl.
  - now rewrite app_nil_r, path_eta.
  - reflexivity.
Qed.

(** C7. [close()] appends one LineTo(start) exactly when the path is not
    closed, and nothing otherwise.  When the start point compares close to
    itself, the path is closed afterwards and a second [close()] changes
    nothing, so two calls append at most one command. *)
Theorem close_idempotent (P : Path) :
  close P = (inr tt, mkPath (_start P)
                       (_commands P ++
                        (if is_closed P then [] else [LineTo (start P)])))
  /\ (isclose (_start P) (_start P) None = true ->
      is_closed (exec close P) = true
      /\ exec close (exec close P) = exec close P
      /\ (length (_commands (exec close (exec close P)))
          <= length (_commands P) + 1)%nat).
Proof.
  split; [apply close_run | intro Hrefl].
  assert (Hc : is_closed (exec close P) = true).
  { unfold exec; rewrite close_run; simpl.
    destruct (is_closed P) eqn:E.
    - rewrite app_nil_r, path_eta. exact E.
    - unfold is_closed. rewrite end_snoc. simpl. exact Hrefl. }
  assert (Hi : exec close (exec close P) = exec close P).
  { unfold exec at 1. rewrite close_run, Hc. simpl.
    now rewrite app_nil_r, path_eta. }
  split; [exact Hc | split; [exact Hi|]].
  rewrite Hi. unfold exec; rewrite close_run; simpl.
  rewrite length_app. destruct (is_closed P); simpl; lia.
Qed.

(** *** Curve chains (add_curves4, add_curves3) *)

Lemma chain4_loop (curves : list (Bezier4P float)) : forall P : Path,
  for_each curves (fun curve =>
    let '(start, ctrl1, ctrl2, end_point) := control_points4 curve in
    bind (gets end_) (fun self_end =>
    bind (if negb (isclose start self_end (Some tol_1e_9))
          then line_to start else ret tt) (fun _ =>
    curve4_to end_point ctrl1 ctrl2))) P
  = (inr tt, mkPath (_start P) (_commands P ++ chain4 (end_ P) curves)).
Proof.
  induction curves as [|[[[[s c1] c2] e]] rest IH]; intro P; simpl.
  - unfold ret. now rewrite app_nil_r, path_eta.
  - unfold bind at 1. unfold bind at 1. unfold gets at 1.
    destruct (isclose s (end_ P) (Some tol_1e_9)) eqn:E; simpl;
      unfold bind at 1; unfold ret, line_to, curve4_to, append, modify; simpl;
      rewrite IH; simpl.
    + rewrite end_snoc; simpl. now rewrite <- app_assoc.
    + rewrite end_snoc; simpl. now rewrite <- !app_assoc.
Qed.

Lemma chain3_loop (curves : list (Bezier3P float)) : forall P : Path,
  for_each curves (fun curve =>
    let '(start, ctrl, end_point) := control_points3 curve in
    bind (gets end_) (fun self_end =>
    bind (if negb (isclose start self_end (Some tol_1e_9))
          then line_to start else ret tt) (fun _ =>
    curve3_to end_point ctrl))) P
  = (inr tt, mkPath (_start P) (_commands P ++ chain3 (end_ P) curves)).
Proof.
  induction curves as [|[[[s c] e]] rest IH]; intro P; simpl.
  - unfold ret. now rewrite app_nil_r, path_eta.
  - unfold bind at 1. unfold bind at 1. unfold gets at 1.
    destruct (isclose s (end_ P) (Some tol_1e_9)) eqn:E; simpl;
      unfold bind at 1; unfold ret, line_to, curve3_to, append, modify; simpl;
      rewrite IH; simpl.
    + rewrite end_snoc; simpl. now rewrite <- app_assoc.
    + rewrite end_snoc; simpl. now rewrite <- !app_assoc.
Qed.

Lemma add_curves4_run (P : Path) (curves : list (Bezier4P float)) :
  add_curves4 curves P =
  (inr tt,
   mkPath (_start P)
     (_commands P ++
      match curves with
      | [] => []
      | c0 :: cs =>
          chain4 (end_ P)
            (if isclose (end_ P) (last_point4 (last cs c0)) None
             then reversed_chain4 curves else curves)
      end)).
Proof.
  destruct curves as [|c0 cs].
  - simpl. unfold ret. now rewrite app_nil_r, path_eta.
  - unfold add_curves4, bind at 1, gets at 1.
    unfold _reverse_bezier_curves, reversed_chain4.
    destruct (isclose (end_ P) (last_point4 (last cs c0)) None);
      apply chain4_loop.
Qed.

Lemma add_curves3_run (P : Path) (curves : list (Bezier3P float)) :
  add_curves3 curves P =
  (inr tt,
   mkPath (_start P)
     (_commands P ++
      match curves with
      | [] => []
      | c0 :: cs =>
          chain3 (end_ P)
            (if isclose (end_ P) (last_point3 (last cs c0)) None
             then reversed_chain3 curves else curves)
      end)).
Proof.
  destruct curves as [|c0 cs].
  - simpl. unfold ret. now rewrite app_nil_r, path_eta.
  - unfold add_curves3, bind at 1, gets at 1.
    unfold _reverse_bezier_curves, reversed_chain3.
    destruct (isclose (end_ P) (last_point3 (last cs c0)) None);
      apply chain3_loop.
Qed.

(** C1. For a non-empty curve list [c0 :: cs], add_curves4 (add_curves3)
    reverses the whole list -- every curve's own points, then the list
    order -- exactly when the path end is close to the end point of the last
    curve; it then walks the resulting list with a running end point: a
    connecting LineTo to a curve's start is inserted exactly when that start
    is not close to the running end, and the curve is appended as a Curve4To
    (Curve3To).  The start point and the earlier commands are untouched, and
    the choice of direction reads nothing but the path end and the last
    curve's end point. *)
Theorem add_curves_chain :
  (forall (P : Path) (c0 : Bezier4P float) (cs : list (Bezier4P float)),
      add_curves4 (c0 :: cs) P =
      (inr tt,
       mkPath (_start P)
         (_commands P ++
          chain4 (end_ P)
            (if isclose (end_ P) (last_point4 (last (c0 :: cs) c0)) None
             then rev (map reverse4 (c0 :: cs)) else c0 :: cs))))
  /\
  (forall (P : Path) (c0 : Bezier3P float) (cs : list (Bezier3P float)),
      add_curves3 (c0 :: cs) P =
      (inr tt,
       mkPath (_start P)
         (_commands P ++
          chain3 (end_ P)
            (if isclose (end_ P) (last_point3 (last (c0 :: cs) c0)) None
             then rev (map reverse3 (c0 :: cs)) else c0 :: cs)))).
Proof.
  assert (L : forall A (c0 : A) cs, last (c0 :: cs) c0 = last cs c0).
  { intros A c0 cs; destruct cs; reflexivity. }
  split; intros P c0 cs; rewrite L.
  - apply (add_curves4_run P (c0 :: cs)).
  - apply (add_curves3_run P (c0 :: cs)).
Qed.

(** *** Reversal *)

Lemma last_cons_cons {A} (l : list A) (a d : A) : last (a :: l) d = last l a.
Proof.
  revert a d; induction l as [|b l IH]; intros a d; [reflexivity|].
  change (last (a :: b :: l) d) with (last (b :: l) d).
  now rewrite (IH b d), (IH b a).
Qed.

Lemma end_cons (s : Vec3) (d : PathElement) (l : list PathElement) :
  end_ (mkPath s (d :: l)) = end_ (mkPath (cmd_end d) l).
Proof.
  unfold end_; simpl. destruct l as [|p l]; [reflexivity|].
  now rewrite last_cons_cons.
Qed.

Lemma reversed_commands_snoc (l : list PathElement) :
  forall (s : Vec3) (c : PathElement),
    reversed_commands s (l ++ [c])
    = reversed_cmd (end_ (mkPath s l)) c ++ reversed_commands s l.
Proof.
  induction l as [|d l IH]; intros s c; simpl.
  - now rewrite app_nil_r.
  - rewrite IH, end_cons. now rewrite app_assoc.
Qed.

Lemma prev_end_run (pre rest : list PathElement) (s : Vec3) (Q : Path) :
  (if (0 <? length pre)%nat
   then bind (lift (getitem (mkPath s (pre ++ rest)) (length pre - 1)))
             (fun prev => ret (cmd_end prev))
   else ret (start (mkPath s (pre ++ rest)))) Q
  = (inr (end_ (mkPath s pre)), Q).
Proof.
  destruct pre as [|a pre'] using rev_ind; [reflexivity|].
  rewrite length_app; simpl.
  replace (length pre' + 1 - 1)%nat with (length pre') by lia.
  replace (0 <? length pre' + 1)%nat with true
    by (symmetry; apply Nat.ltb_lt; lia).
  unfold bind, lift, getitem, ret; simpl.
  rewrite <- app_assoc, nth_error_app2 by lia.
  rewrite Nat.sub_diag; simpl. now rewrite end_snoc.
Qed.

Lemma range_down_S (k : nat) : range_down (S k) = k :: range_down k.
Proof.
  unfold range_down. rewrite seq_S, rev_app_distr. reflexivity.
Qed.

Lemma reversed_loop (pre : list PathElement) :
  forall (post : list PathElement) (s : Vec3) (Q : Path),
    for_each (range_down (length pre))
             (reversed_body (mkPath s (pre ++ post))) Q
    = (inr tt, mkPath (_start Q) (_commands Q ++ reversed_commands s pre)).
Proof.
  induction pre as [|c pre IH] using rev_ind; intros post s Q.
  - simpl. unfold ret. now rewrite app_nil_r, path_eta.
  - rewrite length_app; simpl. rewrite Nat.add_1_r, range_down_S.
    simpl for_each. unfold bind at 1.
    assert (Hb : reversed_body (mkPath s ((pre ++ [c]) ++ post)) (length pre) Q
                 = (inr tt, mkPath (_start Q)
                              (_commands Q ++ reversed_cmd (end_ (mkPath s pre)) c))).
    { unfold reversed_body. unfold bind at 1.
      unfold lift at 1, getitem at 1. simpl _commands.
      rewrite <- app_assoc, nth_error_app2 by lia.
      rewrite Nat.sub_diag. simpl nth_error.
      unfold bind at 1.
      rewrite (prev_end_run pre ([c] ++ post) s Q).
      destruct c; simpl; unfold line_to, curve3_to, curve4_to, append,
        modify, ret; try reflexivity.
      now rewrite app_nil_r, path_eta. }
    rewrite Hb. rewrite <- app_assoc. rewrite IH. simpl.
    now rewrite reversed_commands_snoc, app_assoc.
Qed.

Lemma reversed_run (s : Vec3) (c : PathElement) (cs : list PathElement) :
  reversed (mkPath s (c :: cs))
  = inr (mkPath (end_ (mkPath s (c :: cs))) (reversed_commands s (c :: cs))).
Proof.
  unfold reversed, len. cbn [_commands].
  pose proof (reversed_loop (c :: cs) [] s
                (Path_init (end_ (mkPath s (c :: cs))))) as H.
  rewrite app_nil_r in H. rewrite H. reflexivity.
Qed.

Lemma reversed_empty (s : Vec3) :
  reversed (mkPath s []) = inr (mkPath NULLVEC []).
Proof. reflexivity. Qed.

Lemma reversed_cmd_typed (c : PathElement) (s : Vec3) :
  supported c = true ->
  exists y, reversed_cmd s c = [y] /\ cmd_end y = s
            /\ reversed_cmd (cmd_end c) y = [c].
Proof.
  destruct c; simpl; intro H; try discriminate; eexists; repeat split.
Qed.

Lemma reversed_commands_end (cmds : list PathElement) (s e : Vec3) :
  well_typed cmds = true -> cmds <> [] ->
  end_ (mkPath e (reversed_commands s cmds)) = s.
Proof.
  destruct cmds as [|c cs]; [congruence|]. intros Hwt _.
  simpl in Hwt. apply andb_prop in Hwt as [Hc _].
  destruct (reversed_cmd_typed c s Hc) as (y & Hy & Hend & _).
  simpl. rewrite Hy, end_snoc. exact Hend.
Qed.

Lemma reversed_commands_involutive (cmds : list PathElement) :
  forall s : Vec3,
    well_typed cmds = true ->
    reversed_commands (end_ (mkPath s cmds)) (reversed_commands s cmds) = cmds.
Proof.
  induction cmds as [|c cs IH]; intros s Hwt; [reflexivity|].
  simpl in Hwt. apply andb_prop in Hwt as [Hc Hcs].
  destruct (reversed_cmd_typed c s Hc) as (y & Hy & _ & Hback).
  simpl reversed_commands. rewrite Hy, reversed_commands_snoc.
  rewrite end_cons, (IH (cmd_end c) Hcs).
  assert (He : end_ (mkPath (end_ (mkPath (cmd_end c) cs))
                            (reversed_commands (cmd_end c) cs)) = cmd_end c).
  { destruct cs as [|d ds]; [reflexivity|].
    apply reversed_commands_end; [exact Hcs | discriminate]. }
  rewrite He, Hback. reflexivity.
Qed.

Lemma reversed_commands_cons_shape (c : PathElement) (cs : list PathElement)
  (s : Vec3) :
  well_typed (c :: cs) = true ->
  exists d ds, reversed_commands s (c :: cs) = d :: ds.
Proof.
  intro Hwt. simpl in Hwt. apply andb_prop in Hwt as [Hc _].
  destruct (reversed_cmd_typed c s Hc) as (y & Hy & _).
  simpl. rewrite Hy.
  destruct (reversed_commands (cmd_end c) cs); simpl; eauto.
Qed.

(** C4 (amended). For a path with commands, [reversed()] is a
    path that starts at the old end and holds the commands in reversed
    traversal order, each ending where its predecessor in the original path
    ended (the original start for the original first command): Curve4To
    with ctrl1 and ctrl2 swapped, Curve3To with its ctrl, LineTo with the new
    end only.  For a path without commands it is [Path()]: no commands,
    start at the origin. *)
Theorem reversed_shape :
  (forall (s : Vec3) (c : PathElement) (cs : list PathElement),
      reversed (mkPath s (c :: cs))
      = inr (mkPath (end_ (mkPath s (c :: cs)))
                    (reversed_commands s (c :: cs))))
  /\ (forall s : Vec3, reversed (mkPath s []) = inr (mkPath NULLVEC [])).
Proof.
  split; [apply reversed_run | apply reversed_empty].
Qed.

(** C3 (amended). Reversing twice gives back a path with commands
    unchanged: same start, same commands with the same points.
    Reversing a path without commands twice gives the empty path at the
    origin. *)
Theorem reversed_round_trip (P : Path)
  (Hwt : well_typed (_commands P) = true) :
  exists P', reversed P = inr P'
             /\ reversed P' = inr (match _commands P with
                                   | [] => Path_init NULLVEC
                                   | _ :: _ => P
                                   end).
Proof.
  destruct P as [s [|c cs]]; simpl in *.
  - exists (Path_init NULLVEC). split; reflexivity.
  - eexists; split; [apply reversed_run|].
    destruct (reversed_commands_cons_shape c cs s Hwt) as (d & ds & Hd).
    rewrite Hd, reversed_run, <- Hd.
    rewrite (reversed_commands_involutive (c :: cs) s Hwt).
    rewrite reversed_commands_end; [reflexivity | exact Hwt | discriminate].
Qed.

(** *** Mutations only append *)

(** the stronger form: the start point is never touched *)
Lemma appends_suffix (m : M unit) :
  (forall P : Path, exists suffix,
      exec m P = mkPath (_start P) (_commands P ++ suffix)) ->
  append_only m.
Proof.
  intro H; split.
  - intro P. destruct (H P) as [sfx E]. exists sfx. now rewrite E.
  - intros s c cs. destruct (H (mkPath s (c :: cs))) as [sfx E]. now rewrite E.
Qed.

Lemma append_only_append (cmd : PathElement) : append_only (append cmd).
Proof. apply appends_suffix; intro P; eexists; reflexivity. Qed.

Lemma append_only_close : append_only close.
Proof.
  apply appends_suffix; intro P. unfold exec; rewrite close_run.
  eexists; reflexivity.
Qed.

Lemma append_only_add_curves4 (curves : list (Bezier4P float)) :
  append_only (add_curves4 curves).
Proof.
  apply appends_suffix; intro P. unfold exec; rewrite add_curves4_run.
  eexists; reflexivity.
Qed.

Lemma append_only_add_curves3 (curves : list (Bezier3P float)) :
  append_only (add_curves3 curves).
Proof.
  apply appends_suffix; intro P. unfold exec; rewrite add_curves3_run.
  eexists; reflexivity.
Qed.

(** [if len(self) == 0 and reset: self.start = v], then the rest *)
Lemma reset_run {A} (v : Vec3) (reset : bool) (k : M A) (P : Path) :
  bind (gets len) (fun n =>
    bind (if (n =? 0)%nat && reset then set_start v else ret tt)
         (fun _ => k)) P
  = k (mkPath (if (len P =? 0)%nat && reset then v else _start P)
              (_commands P)).
Proof.
  destruct P as [s [|c cs]]; destruct reset; simpl; reflexivity.
Qed.

Lemma append_only_after_reset (v : Vec3) (reset : bool)
  (curves : list (Bezier4P float)) :
  append_only (bind (gets len) (fun n =>
    bind (if (n =? 0)%nat && reset then set_start v else ret tt)
         (fun _ => add_curves4 curves))).
Proof.
  split.
  - intro P. unfold exec. rewrite reset_run, add_curves4_run.
    eexists; reflexivity.
  - intros s c cs. unfold exec. rewrite reset_run, add_curves4_run.
    reflexivity.
Qed.

Lemma append_only_add_ellipse (ellipse : ConstructionEllipse) (segments : Z)
  (reset : bool) : append_only (add_ellipse ellipse segments reset).
Proof.
  unfold add_ellipse. destruct (abs_lt (param_span ellipse) tol_1e_9).
  - apply appends_suffix; intro P. exists []. unfold exec, ret; simpl.
    now rewrite app_nil_r, path_eta.
  - apply append_only_after_reset.
Qed.

Lemma append_only_add_spline (spline : BSpline) (level : Z) (reset : bool) :
  append_only (add_spline spline level reset).
Proof. unfold add_spline. apply append_only_after_reset. Qed.

(** C10. line_to, curve3_to, curve4_to, close, add_curves3, add_curves4,
    add_ellipse and add_spline keep the commands present before the call,
    in value and order, as a prefix of the commands after it, and leave the
    start point of a path that already holds a command unchanged. *)
Theorem mutations_append_only :
  forall (location ctrl ctrl1 ctrl2 : Vec3)
         (curves3 : list (Bezier3P float)) (curves4 : list (Bezier4P float))
         (ellipse : ConstructionEllipse) (segments : Z)
         (spline : BSpline) (level : Z) (reset : bool),
    append_only (line_to location)
    /\ append_only (curve3_to location ctrl)
    /\ append_only (curve4_to location ctrl1 ctrl2)
    /\ append_only close
    /\ append_only (add_curves3 curves3)
    /\ append_only (add_curves4 curves4)
    /\ append_only (add_ellipse ellipse segments reset)
    /\ append_only (add_spline spline level reset).
Proof.
  intros. repeat split;
    first [ apply append_only_append | apply append_only_close
          | apply append_only_add_curves3 | apply append_only_add_curves4
          | apply append_only_add_ellipse | apply append_only_add_spline ].
Qed.

(** *** add_2d_polyline *)

Lemma start_stable_ret (E : exn -> Prop) {A} (a : A) :
  start_stable (float := float) E (ret a).
Proof. intro P; split; [reflexivity | discriminate]. Qed.

Lemma start_stable_raise (E : exn -> Prop) {A} (e : exn) :
  E e -> start_stable (float := float) E (raise (A := A) e).
Proof.
  intros He P; split; [reflexivity|].
  intros e' H; simpl in H. now inversion H; subst.
Qed.

Lemma start_stable_bind (E : exn -> Prop) {A B} (m : M A) (k : A -> M B) :
  start_stable E m -> (forall a, start_stable E (k a)) ->
  start_stable E (bind m k).
Proof.
  intros Hm Hk P. unfold bind.
  destruct (Hm P) as [Hs He].
  destruct (m P) as [[e|a] P1]; simpl in *.
  - split; [exact Hs | intros e' H; inversion H; subst; now apply He].
  - destruct (Hk a P1) as [Hs' He']. split; [congruence | exact He'].
Qed.

Lemma start_stable_append (E : exn -> Prop) (cmd : PathElement) :
  start_stable E (append cmd).
Proof. intro P; split; [reflexivity | discriminate]. Qed.

Lemma start_stable_add_curves4 (E : exn -> Prop)
  (curves : list (Bezier4P float)) : start_stable E (add_curves4 curves).
Proof.
  intro P. rewrite add_curves4_run. split; [reflexivity | discriminate].
Qed.

Lemma start_stable_bulge_to (p1 p2 : Vec3) (bulge : float) :
  start_stable only_IndexError (bulge_to p1 p2 bulge).
Proof.
  unfold bulge_to. destruct (isclose p1 p2 None).
  - apply start_stable_ret.
  - destruct (bulge_to_arc p1 p2 bulge) as [[[center sa] ea] radius].
    destruct (cubic_bezier_from_ellipse _ 1) as [|curve0 more].
    + now apply start_stable_raise.
    + apply start_stable_add_curves4.
Qed.

Lemma start_stable_polyline_loop (points : list (float * float * float)) :
  forall (prev : Vec3) (prev_bulge : float),
    start_stable only_IndexError (polyline_loop points (Some prev) prev_bulge).
Proof.
  induction points as [|[[x y] bulge] rest IH]; intros prev prev_bulge.
  - apply start_stable_ret.
  - simpl. apply start_stable_bind; [|intros _; apply IH].
    destruct (truthy prev_bulge);
      [apply start_stable_bulge_to | apply start_stable_append].
Qed.

Lemma add_2d_polyline_steps (points : list (float * float * float))
  (close_ : bool) (ocs : OCS) (elevation : float) (P : Path) :
  add_2d_polyline points close_ ocs elevation P
  = bind (polyline_loop points None fzero) (fun prev_bulge =>
      bind (closing_step close_ prev_bulge) (fun _ =>
        frame_step ocs elevation)) P.
Proof. reflexivity. Qed.

Lemma start_stable_closing_step (close_ : bool) (prev_bulge : float) :
  start_stable only_IndexError (closing_step close_ prev_bulge).
Proof.
  intro P. unfold closing_step, bind, gets.
  destruct (close_ && negb (isclose (start P) (end_ P) None));
    [|apply start_stable_ret].
  destruct (truthy prev_bulge);
    [apply start_stable_bulge_to | apply start_stable_append].
Qed.

Lemma start_stable_to_wcs_loop (ocs : OCS) (elevation : float)
  (items : list (nat * PathElement)) :
  start_stable only_AttributeError
    (for_each items (fun '(i, cmd) =>
       bind (lift (cmd_to_wcs cmd ocs elevation)) (fun cmd' =>
         modify (fun p => mkPath (_start p) (setitem i cmd' (_commands p)))))).
Proof.
  induction items as [|[i cmd] rest IH]; simpl.
  - apply start_stable_ret.
  - apply start_stable_bind; [|intros _; exact IH].
    intro P. unfold bind, lift.
    destruct cmd; simpl; split; try reflexivity; try discriminate.
    intros e H; inversion H; reflexivity.
Qed.

Lemma to_wcs_start (ocs : OCS) (elevation : float) (P : Path) :
  _start (snd (_to_wcs ocs elevation P))
  = ocs_to_wcs ocs (replace_z (_start P) elevation)
  /\ (forall e, fst (_to_wcs ocs elevation P) = inl e -> e = AttributeError).
Proof.
  unfold _to_wcs. unfold bind at 1, modify at 1. unfold bind at 1, gets at 1.
  cbn [_commands].
  exact (start_stable_to_wcs_loop ocs elevation _ _).
Qed.

(** C9. Given at least one (x, y, bulge) triple, add_2d_polyline writes
    Vec3(x, y) of the first triple into the start point of any path, with or
    without commands, and never raises the start setter's ValueError.  When
    it returns, the start is that point, mapped to the world frame if the
    frame is not the identity or the elevation is not zero.  It can only end
    early with an IndexError of the bulge conversion (start is the plain
    point) or an AttributeError of the frame change (start is mapped). *)
Theorem add_2d_polyline_overwrites_start :
  forall (P : Path) (x y bulge : float) (rest : list (float * float * float))
         (close_ : bool) (ocs : OCS) (elevation : float),
    let point := Vec3_xy x y in
    let mapped := ocs_to_wcs ocs (replace_z point elevation) in
    let r := add_2d_polyline ((x, y, bulge) :: rest) close_ ocs elevation P in
    (fst r = inr tt
     /\ _start (snd r)
        = if ocs_transform ocs || truthy elevation then mapped else point)
    \/ (fst r = inl IndexError /\ _start (snd r) = point)
    \/ (fst r = inl AttributeError
        /\ ocs_transform ocs || truthy elevation = true
        /\ _start (snd r) = mapped).
Proof.
  intros P x y bulge rest close_ ocs elevation point mapped r.
  assert (Hr : r = add_2d_polyline ((x, y, bulge) :: rest) close_ ocs
                                   elevation P) by reflexivity.
  clearbody r. rewrite add_2d_polyline_steps in Hr.
  unfold bind at 1 in Hr. simpl polyline_loop in Hr.
  unfold bind at 1, modify at 1 in Hr.
  set (b := if abs_lt bulge tol_1e_6 then fzero else bulge) in Hr.
  set (P0 := mkPath (Vec3_xy x y) (_commands P)) in Hr.
  destruct (start_stable_polyline_loop rest (Vec3_xy x y) b P0) as [Hs He].
  destruct (polyline_loop rest (Some (Vec3_xy x y)) b P0) as [[e|pb] P1];
    simpl in Hs, He.
  { right; left. subst r; simpl.
    split; [now rewrite (He e eq_refl : e = IndexError) | exact Hs]. }
  unfold bind at 1 in Hr.
  destruct (start_stable_closing_step close_ pb P1) as [Hs2 He2].
  destruct (closing_step close_ pb P1) as [[e|[]] P2]; simpl in Hs2, He2.
  { right; left. subst r; simpl.
    split; [now rewrite (He2 e eq_refl : e = IndexError)|].
    now rewrite Hs2. }
  assert (HP2 : _start P2 = point) by (now rewrite Hs2).
  unfold frame_step in Hr.
  destruct (ocs_transform ocs || truthy elevation).
  - destruct (to_wcs_start ocs elevation P2) as [Hs3 He3].
    destruct (_to_wcs ocs elevation P2) as [[e|[]] P3]; simpl in Hs3, He3;
      subst r; simpl.
    + right; right. rewrite (He3 e eq_refl).
      repeat split. subst mapped. now rewrite Hs3, HP2.
    + left. split; [reflexivity|]. subst mapped. now rewrite Hs3, HP2.
  - left. subst r; simpl. split; [reflexivity | exact HP2].
Qed.

(** *** Sampling *)

Section Traversal.
Variable approx_curve3 : Vec3 -> Vec3 -> Vec3 -> Gen Vec3.
Variable approx_curve4 : Vec3 -> Vec3 -> Vec3 -> Vec3 -> Gen Vec3.
Hypothesis H3 : forall s c e, reaches_end (approx_curve3 s c e) e.
Hypothesis H4 : forall s c1 c2 e, reaches_end (approx_curve4 s c1 c2 e) e.

Lemma approximate_cmd_typed (s : Vec3) (cmd : PathElement) :
  supported cmd = true ->
  approximate_cmd approx_curve3 approx_curve4 s cmd
  = (joint_points approx_curve3 approx_curve4 s cmd, None)
  /\ exists mid,
       joint_points approx_curve3 approx_curve4 s cmd = mid ++ [cmd_end cmd].
Proof.
  destruct cmd as [e|e c|e c1 c2|e]; simpl; intro Hk; try discriminate.
  - split; [reflexivity | now exists []].
  - destruct (H3 s c e) as (first & mid & E). rewrite E; simpl.
    split; [reflexivity | now exists mid].
  - destruct (H4 s c1 c2 e) as (first & mid & E). rewrite E; simpl.
    split; [reflexivity | now exists mid].
Qed.

Lemma approximate_loop_typed (cmds : list PathElement) : forall s : Vec3,
  well_typed cmds = true ->
  approximate_loop approx_curve3 approx_curve4 s cmds
  = (sampled approx_curve3 approx_curve4 s cmds, None).
Proof.
  induction cmds as [|cmd rest IH]; intros s Hwt; [reflexivity|].
  simpl in Hwt. apply andb_prop in Hwt as [Hc Hrest].
  simpl. destruct (approximate_cmd_typed s cmd Hc) as [E _].
  now rewrite E, (IH _ Hrest).
Qed.

Lemma sampled_reaches_end (cmds : list PathElement) : forall s : Vec3,
  well_typed cmds = true -> cmds <> [] ->
  exists mid,
    sampled approx_curve3 approx_curve4 s cmds = mid ++ [end_ (mkPath s cmds)].
Proof.
  induction cmds as [|cmd rest IH]; intros s Hwt Hne; [congruence|].
  simpl in Hwt. apply andb_prop in Hwt as [Hc Hrest].
  destruct (approximate_cmd_typed s cmd Hc) as [_ [mid Hmid]].
  simpl sampled. rewrite end_cons.
  destruct rest as [|cmd' rest'].
  - exists mid. simpl. now rewrite app_nil_r.
  - destruct (IH (cmd_end cmd) Hrest) as [mid' Hmid']; [discriminate|].
    rewrite Hmid'. exists (joint_points approx_curve3 approx_curve4 s cmd ++ mid').
    now rewrite app_assoc.
Qed.

Lemma approximate_traverses (P : Path) :
  well_typed (_commands P) = true ->
  traverses approx_curve3 approx_curve4 P
            (_approximate approx_curve3 approx_curve4 P).
Proof.
  intro Hwt. unfold traverses, _approximate.
  destruct P as [s [|c cs]]; [reflexivity|].
  cbn [_commands _start start] in *.
  rewrite (approximate_loop_typed _ s Hwt).
  split; [reflexivity|].
  destruct (sampled_reaches_end (c :: cs) s Hwt) as [mid Hmid]; [discriminate|].
  exists mid. unfold fst. now rewrite Hmid.
Qed.

(** the exception that ends the traversal, if any *)
Lemma approximate_loop_outcome (cmds : list PathElement) : forall s : Vec3,
  snd (approximate_loop approx_curve3 approx_curve4 s cmds)
  = if well_typed cmds then None
    else Some (ValueError_invalid_command START_PATH).
Proof.
  induction cmds as [|cmd rest IH]; intro s; [reflexivity|].
  simpl well_typed. destruct (supported cmd) eqn:Hc.
  - simpl. destruct (approximate_cmd_typed s cmd Hc) as [E _]. rewrite E.
    specialize (IH (cmd_end cmd)).
    destruct (approximate_loop _ _ (cmd_end cmd) rest) as [more r].
    exact IH.
  - destruct cmd; try discriminate. reflexivity.
Qed.

Lemma approximate_outcome (P : Path) :
  snd (_approximate approx_curve3 approx_curve4 P)
  = if well_typed (_commands P) then None
    else Some (ValueError_invalid_command START_PATH).
Proof.
  unfold _approximate. destruct P as [s [|c cs]]; [reflexivity|].
  cbn [_commands _start].
  pose proof (approximate_loop_outcome (c :: cs) s) as H.
  destruct (approximate_loop _ _ s (c :: cs)) as [pts r]. exact H.
Qed.

End Traversal.

Lemma approximate_samplers (HC : samplers_reach_end) (n : Z) :
  (1 <= n)%Z ->
  (forall s c e, reaches_end (approximate_curve3 n s c e) e)
  /\ (forall s c1 c2 e, reaches_end (approximate_curve4 n s c1 c2 e) e).
Proof.
  intro Hn. destruct HC as (A3 & A4 & _). split; intros.
  - exact (A3 (mkBezier3P (s, c, e)) n Hn).
  - exact (A4 (mkBezier4P (s, c1, c2, e)) n Hn).
Qed.

Lemma flattening_samplers (HC : samplers_reach_end) (d : float) (n : Z) :
  is_pos d = true -> (1 <= n)%Z ->
  (forall s c e, reaches_end (flattening_curve3 d n s c e) e)
  /\ (forall s c1 c2 e, reaches_end (flattening_curve4 d n s c1 c2 e) e).
Proof.
  intros Hd Hn. destruct HC as (_ & _ & F3 & F4). split; intros.
  - exact (F3 (mkBezier3P (s, c, e)) d n Hd Hn).
  - exact (F4 (mkBezier4P (s, c1, c2, e)) d n Hd Hn).
Qed.

(** C2. [approximate(n)] and [flattening(d, n)] yield nothing for a path
    without commands; a LineTo contributes its end point and nothing else,
    whatever the samplers and n are, and a curve contributes its samples
    without the first one.  With samplers that run from a curve's first to
    its last control point, n >= 1 and d > 0, the traversal of a path with
    commands yields the start point first and the end point last. *)
Theorem sampling_endpoints (P : Path) (n : Z) (d : float) :
  (forall s : Vec3,
      approximate n (mkPath s []) = ([], None)
      /\ flattening d n (mkPath s []) = ([], None))
  /\ (forall a3 a4 (s e : Vec3),
         approximate_cmd a3 a4 s (LineTo e) = ([e], None))
  /\ (forall a3 a4 (s e c : Vec3),
         approximate_cmd a3 a4 s (Curve3To e c) = skip_first (a3 s c e))
  /\ (forall a3 a4 (s e c1 c2 : Vec3),
         approximate_cmd a3 a4 s (Curve4To e c1 c2)
         = skip_first (a4 s c1 c2 e))
  /\ (samplers_reach_end -> (1 <= n)%Z -> is_pos d = true ->
      well_typed (_commands P) = true ->
      traverses (approximate_curve3 n) (approximate_curve4 n) P
                (approximate n P)
      /\ traverses (flattening_curve3 d n) (flattening_curve4 d n) P
                   (flattening d n P)).
Proof.
  split; [intro s; split; reflexivity|].
  do 3 (split; [reflexivity|]).
  intros HC Hn Hd Hwt.
  destruct (approximate_samplers HC n Hn) as [A3 A4].
  destruct (flattening_samplers HC d n Hd Hn) as [F3 F4].
  split.
  - exact (approximate_traverses _ _ A3 A4 P Hwt).
  - exact (approximate_traverses _ _ F3 F4 P Hwt).
Qed.

(** *** Paths built through the public API *)

Lemma well_typed_app (l1 l2 : list PathElement) :
  well_typed (l1 ++ l2) = well_typed l1 && well_typed l2.
Proof. apply forallb_app. Qed.

Lemma keeps_typed_ret {A} (a : A) : keeps_typed (float := float) (ret a).
Proof. intros P H; exact H. Qed.

Lemma keeps_typed_raise {A} (e : exn) :
  keeps_typed (float := float) (raise (A := A) e).
Proof. intros P H; exact H. Qed.

Lemma keeps_typed_bind {A B} (m : M A) (k : A -> M B) :
  keeps_typed m -> (forall a, keeps_typed (k a)) -> keeps_typed (bind m k).
Proof.
  intros Hm Hk P HP. unfold bind. specialize (Hm P HP).
  destruct (m P) as [[e|a] P1]; simpl in *; [exact Hm|].
  now apply Hk.
Qed.

Lemma keeps_typed_for_each {A} (xs : list A) (body : A -> M unit) :
  (forall x, keeps_typed (body x)) -> keeps_typed (for_each xs body).
Proof.
  intro Hb. induction xs as [|x xs IH]; simpl.
  - apply keeps_typed_ret.
  - apply keeps_typed_bind; [apply Hb | intros _; exact IH].
Qed.

Lemma keeps_typed_append (cmd : PathElement) :
  supported cmd = true -> keeps_typed (append cmd).
Proof.
  intros Hc P HP. simpl. rewrite well_typed_app, HP. simpl. now rewrite Hc.
Qed.

Lemma keeps_typed_close : keeps_typed close.
Proof.
  intros P HP. rewrite close_run; simpl.
  rewrite well_typed_app, HP. now destruct (is_closed P).
Qed.

Lemma chain4_typed (curves : list (Bezier4P float)) : forall running : Vec3,
  well_typed (chain4 running curves) = true.
Proof.
  induction curves as [|[[[[s c1] c2] e]] rest IH]; intro running;
    [reflexivity|].
  simpl. rewrite well_typed_app. simpl. rewrite IH.
  now destruct (isclose s running (Some tol_1e_9)).
Qed.

Lemma chain3_typed (curves : list (Bezier3P float)) : forall running : Vec3,
  well_typed (chain3 running curves) = true.
Proof.
  induction curves as [|[[[s c] e]] rest IH]; intro running; [reflexivity|].
  simpl. rewrite well_typed_app. simpl. rewrite IH.
  now destruct (isclose s running (Some tol_1e_9)).
Qed.

Lemma keeps_typed_add_curves4 (curves : list (Bezier4P float)) :
  keeps_typed (add_curves4 curves).
Proof.
  intros P HP. rewrite add_curves4_run; simpl.
  rewrite well_typed_app, HP; simpl.
  destruct curves; [reflexivity | apply chain4_typed].
Qed.

Lemma keeps_typed_add_curves3 (curves : list (Bezier3P float)) :
  keeps_typed (add_curves3 curves).
Proof.
  intros P HP. rewrite add_curves3_run; simpl.
  rewrite well_typed_app, HP; simpl.
  destruct curves; [reflexivity | apply chain3_typed].
Qed.

Lemma keeps_typed_after_reset (v : Vec3) (reset : bool)
  (curves : list (Bezier4P float)) :
  keeps_typed (bind (gets len) (fun n =>
    bind (if (n =? 0)%nat && reset then set_start v else ret tt)
         (fun _ => add_curves4 curves))).
Proof.
  intros P HP. rewrite reset_run. now apply keeps_typed_add_curves4.
Qed.

Lemma keeps_typed_bulge_to (p1 p2 : Vec3) (bulge : float) :
  keeps_typed (bulge_to p1 p2 bulge).
Proof.
  unfold bulge_to. destruct (isclose p1 p2 None).
  - apply keeps_typed_ret.
  - destruct (bulge_to_arc p1 p2 bulge) as [[[center sa] ea] radius].
    destruct (cubic_bezier_from_ellipse _ 1) as [|curve0 more].
    + apply keeps_typed_raise.
    + apply keeps_typed_add_curves4.
Qed.

Lemma keeps_typed_polyline_loop (points : list (float * float * float)) :
  forall (prev_point : option Vec3) (prev_bulge : float),
    keeps_typed (polyline_loop points prev_point prev_bulge).
Proof.
  induction points as [|[[x y] bulge] rest IH]; intros prev_point prev_bulge.
  - apply keeps_typed_ret.
  - simpl. destruct prev_point as [prev|].
    + apply keeps_typed_bind; [|intros _; apply IH].
      destruct (truthy prev_bulge);
        [apply keeps_typed_bulge_to | now apply keeps_typed_append].
    + apply keeps_typed_bind; [|intros _; apply IH].
      intros P HP; exact HP.
Qed.

Lemma keeps_typed_closing_step (close_ : bool) (prev_bulge : float) :
  keeps_typed (closing_step close_ prev_bulge).
Proof.
  intros P. unfold closing_step, bind, gets.
  destruct (close_ && negb (isclose (start P) (end_ P) None));
    [|apply keeps_typed_ret].
  destruct (truthy prev_bulge);
    [apply keeps_typed_bulge_to | now apply keeps_typed_append].
Qed.

Lemma well_typed_setitem (l : list PathElement) :
  forall (i : nat) (cmd : PathElement),
    supported cmd = true -> well_typed l = true ->
    well_typed (setitem i cmd l) = true.
Proof.
  induction l as [|a l IH]; intros i cmd Hc Hl; [now destruct i|].
  simpl in Hl. apply andb_prop in Hl as [Ha Hl].
  destruct i; simpl.
  - now rewrite Hc, Hl.
  - now rewrite Ha, IH.
Qed.

Lemma keeps_typed_to_wcs (ocs : OCS) (elevation : float) :
  keeps_typed (_to_wcs ocs elevation).
Proof.
  unfold _to_wcs.
  apply keeps_typed_bind; [intros P HP; exact HP | intros _].
  apply keeps_typed_bind; [intros P HP; exact HP | intros cmds].
  apply keeps_typed_for_each. intros [i cmd] P HP.
  unfold bind, lift.
  destruct cmd; simpl;
    try (apply well_typed_setitem; [reflexivity | exact HP]).
  exact HP.
Qed.

Lemma keeps_typed_add_2d_polyline (points : list (float * float * float))
  (close_ : bool) (ocs : OCS) (elevation : float) :
  keeps_typed (add_2d_polyline points close_ ocs elevation).
Proof.
  intros P HP. rewrite add_2d_polyline_steps. revert P HP.
  apply keeps_typed_bind; [apply keeps_typed_polyline_loop | intros pb].
  apply keeps_typed_bind; [apply keeps_typed_closing_step | intros _].
  unfold frame_step. destruct (ocs_transform ocs || truthy elevation);
    [apply keeps_typed_to_wcs | apply keeps_typed_ret].
Qed.

Lemma keeps_typed_run_mutation (m : Mutation) : keeps_typed (run_mutation m).
Proof.
  destruct m; simpl.
  - now apply keeps_typed_append.
  - now apply keeps_typed_append.
  - now apply keeps_typed_append.
  - apply keeps_typed_close.
  - apply keeps_typed_add_curves3.
  - apply keeps_typed_add_curves4.
  - apply keeps_typed_add_2d_polyline.
  - unfold add_ellipse. destruct (abs_lt (param_span ellipse) tol_1e_9);
      [apply keeps_typed_ret | apply keeps_typed_after_reset].
  - apply keeps_typed_after_reset.
Qed.

Lemma from_vertices_typed (vertices : list Vec3) (close_ : bool) :
  well_typed (_commands (from_vertices vertices close_)) = true.
Proof.
  destruct vertices as [|v0 [|v1 rest]]; try reflexivity.
  unfold from_vertices, exec.
  apply keeps_typed_bind; [| intros _ | reflexivity].
  - apply keeps_typed_for_each. intro x. now apply keeps_typed_append.
  - destruct close_; [apply keeps_typed_close | apply keeps_typed_ret].
Qed.

Lemma api_built_typed (P : Path) :
  api_built P -> well_typed (_commands P) = true.
Proof.
  induction 1 as [s | vertices close_ | P m HP IH].
  - reflexivity.
  - apply from_vertices_typed.
  - now apply keeps_typed_run_mutation.
Qed.

Lemma holds_unsupported_iff (P : Path) :
  holds_unsupported P <-> well_typed (_commands P) = false.
Proof.
  unfold holds_unsupported. induction (_commands P) as [|c cs IH]; simpl.
  - split; [intros (cmd & [] & _) | discriminate].
  - split.
    + intros (cmd & [Heq | Hin] & H1 & H2 & H3).
      * subst cmd. destruct c; simpl in *; congruence.
      * destruct (supported c); [simpl; apply IH; eauto | reflexivity].
    + intro H. destruct (supported c) eqn:Hc; simpl in H.
      * apply IH in H as (cmd & Hin & Hk). eauto.
      * exists c. split; [now left|].
        destruct c; simpl in Hc; try discriminate.
        repeat split; discriminate.
Qed.

(** C8. With samplers that run normally, [approximate] and [flattening]
    end with ValueError('Invalid command: ...') exactly when the path holds
    a command whose kind is none of LINE_TO, CURVE3_TO, CURVE4_TO, and end
    without an exception otherwise; a path built from the constructor or
    from_vertices by calls of line_to, curve3_to, curve4_to, close,
    add_curves3, add_curves4, add_2d_polyline, add_ellipse and add_spline
    holds no such command, so the traversal of such a path does not raise. *)
Theorem unsupported_command_unreachable (HC : samplers_reach_end)
  (n : Z) (d : float) (Hn : (1 <= n)%Z) (Hd : is_pos d = true) :
  (forall P : Path,
      (raises_invalid_command (approximate n P) <-> holds_unsupported P)
      /\ (raises_invalid_command (flattening d n P) <-> holds_unsupported P)
      /\ (~ holds_unsupported P ->
          snd (approximate n P) = None /\ snd (flattening d n P) = None))
  /\ (forall P : Path,
         api_built P ->
         ~ holds_unsupported P
         /\ snd (approximate n P) = None
         /\ snd (flattening d n P) = None).
Proof.
  destruct (approximate_samplers HC n Hn) as [A3 A4].
  destruct (flattening_samplers HC d n Hd Hn) as [F3 F4].
  assert (Hraise : forall (P : Path) (g : Gen Vec3),
             snd g = (if well_typed (_commands P) then None
                      else Some (ValueError_invalid_command START_PATH)) ->
             (raises_invalid_command g <-> holds_unsupported P)
             /\ (~ holds_unsupported P -> snd g = None)).
  { intros P g Hg. rewrite holds_unsupported_iff. unfold raises_invalid_command.
    rewrite Hg. destruct (well_typed (_commands P)); repeat split.
    - intros [t Ht]; discriminate.
    - discriminate.
    - now exists START_PATH.
    - intro H; now elim H. }
  assert (Hout : forall P : Path,
      (raises_invalid_command (approximate n P) <-> holds_unsupported P)
      /\ (raises_invalid_command (flattening d n P) <-> holds_unsupported P)
      /\ (~ holds_unsupported P ->
          snd (approximate n P) = None /\ snd (flattening d n P) = None)).
  { intro P.
    destruct (Hraise P _ (approximate_outcome _ _ A3 A4 P)) as [Ha Ha'].
    destruct (Hraise P _ (approximate_outcome _ _ F3 F4 P)) as [Hf Hf'].
    repeat split; try apply Ha; try apply Hf; auto. }
  split; [exact Hout|].
  intros P HP. pose proof (api_built_typed P HP) as Hwt.
  assert (Hno : ~ holds_unsupported P)
    by (rewrite holds_unsupported_iff, Hwt; discriminate).
  destruct (Hout P) as (_ & _ & Hnone). destruct (Hnone Hno). auto.
Qed.

End PathTheory.

(* ------------------------------------------------------------------ *)
(** ** Further properties: queries, reversal, vertices, frames *)

Section PathTheoryMore.
Context {float : Type} {FO : FloatOps float} {MK : MathKernel float}
        {AK : AffineKernel float}.

Local Abbreviation Vec3 := (Vec3 float).
Local Abbreviation Path := (@Path float).
Local Abbreviation PathElement := (@PathElement float).
Local Abbreviation M := (@M float).

(** *** Control vertices *)

Lemma control_vertices_cons (s : Vec3) (c : PathElement)
  (cs : list PathElement) :
  control_vertices (mkPath s (c :: cs))
  = s :: flat_map control_vertices_cmd (c :: cs).
Proof. reflexivity. Qed.

Lemma control_vertices_cmd_typed (cmd : PathElement) :
  supported cmd = true ->
  exists mid, control_vertices_cmd cmd = mid ++ [cmd_end cmd].
Proof.
  destruct cmd as [e|e c|e c1 c2|e]; simpl; intro H; try discriminate.
  - now exists [].
  - now exists [c].
  - now exists [c1; c2].
Qed.

Lemma flat_map_vertices_end (cmds : list PathElement) : forall s : Vec3,
  well_typed cmds = true -> cmds <> [] ->
  exists mid,
    flat_map control_vertices_cmd cmds = mid ++ [end_ (mkPath s cmds)].
Proof.
  induction cmds as [|c rest IH]; intros s Hwt Hne; [congruence|].
  simpl in Hwt. apply andb_prop in Hwt as [Hc Hrest].
  destruct (control_vertices_cmd_typed c Hc) as [mid Hmid].
  simpl flat_map. rewrite end_cons.
  destruct rest as [|c' rest'].
  - exists mid. simpl. now rewrite app_nil_r.
  - destruct (IH (cmd_end c) Hrest) as [mid' Hmid']; [discriminate|].
    rewrite Hmid'. exists (control_vertices_cmd c ++ mid').
    now rewrite app_assoc.
Qed.

(** X1. [control_vertices()] yields nothing for a path without commands,
    not even its start point; for a path of LineTo, Curve3To and Curve4To
    commands it yields the start point first and the end point last. *)
Theorem control_vertices_ends :
  (forall s : Vec3, control_vertices (mkPath s []) = [])
  /\ (forall (s : Vec3) (c : PathElement) (cs : list PathElement),
         well_typed (c :: cs) = true ->
         exists mid,
           control_vertices (mkPath s (c :: cs))
           = s :: mid ++ [end_ (mkPath s (c :: cs))]).
Proof.
  split; [reflexivity|]. intros s c cs Hwt.
  destruct (flat_map_vertices_end (c :: cs) s Hwt) as [mid Hmid];
    [discriminate|].
  exists mid. now rewrite control_vertices_cons, Hmid.
Qed.

Lemma reversed_cmd_vertices (c : PathElement) (s : Vec3) :
  supported c = true ->
  cmd_end c :: flat_map control_vertices_cmd (reversed_cmd s c)
  = rev (control_vertices_cmd c) ++ [s].
Proof.
  destruct c; simpl; intro H; try discriminate; reflexivity.
Qed.

Lemma reversed_commands_vertices (cmds : list PathElement) :
  forall s : Vec3,
    well_typed cmds = true ->
    end_ (mkPath s cmds)
      :: flat_map control_vertices_cmd (reversed_commands s cmds)
    = rev (s :: flat_map control_vertices_cmd cmds).
Proof.
  induction cmds as [|c rest IH]; intros s Hwt; [reflexivity|].
  simpl in Hwt. apply andb_prop in Hwt as [Hc Hrest].
  simpl reversed_commands. rewrite flat_map_app, end_cons.
  rewrite app_comm_cons, (IH (cmd_end c) Hrest).
  change (rev (cmd_end c :: flat_map control_vertices_cmd rest))
    with (rev (flat_map control_vertices_cmd rest) ++ [cmd_end c]).
  rewrite <- app_assoc. simpl app at 2.
  rewrite (reversed_cmd_vertices c s Hc).
  simpl flat_map. simpl rev. rewrite rev_app_distr.
  now rewrite <- !app_assoc.
Qed.

Lemma control_vertices_reversed_run (s : Vec3) (c : PathElement)
  (cs : list PathElement) :
  well_typed (c :: cs) = true ->
  control_vertices (mkPath (end_ (mkPath s (c :: cs)))
                           (reversed_commands s (c :: cs)))
  = rev (control_vertices (mkPath s (c :: cs))).
Proof.
  intro Hwt.
  destruct (reversed_commands_cons_shape c cs s Hwt) as (d & ds & Hd).
  rewrite Hd, control_vertices_cons, <- Hd.
  rewrite control_vertices_cons.
  exact (reversed_commands_vertices (c :: cs) s Hwt).
Qed.

(** X2. The control vertices of the reversed path are the control vertices
    of the path in reverse order, for a path of LineTo, Curve3To and
    Curve4To commands that has at least one command. *)
Theorem control_vertices_reversed (s : Vec3) (c : PathElement)
  (cs : list PathElement) (Hwt : well_typed (c :: cs) = true) :
  exists R, reversed (mkPath s (c :: cs)) = inr R
            /\ control_vertices R = rev (control_vertices (mkPath s (c :: cs))).
Proof.
  eexists; split; [apply reversed_run|].
  now apply control_vertices_reversed_run.
Qed.

(** *** Reversal, continued *)

Lemma existsb_kind_reversed (k : Command -> bool) (cmds : list PathElement) :
  k START_PATH = false ->
  forall s : Vec3,
    existsb (fun cmd => k (cmd_type cmd)) (reversed_commands s cmds)
    = existsb (fun cmd => k (cmd_type cmd)) cmds.
Proof.
  intro Hk. induction cmds as [|c rest IH]; intro s; [reflexivity|].
  simpl. rewrite existsb_app, IH, orb_comm. f_equal.
  destruct c; simpl; rewrite ?orb_false_r; try reflexivity.
  now rewrite Hk.
Qed.

(** X3. [reversed()] never raises, and the reversed path has line segments
    exactly when the path has, and curve segments exactly when the path
    has. *)
Theorem reversed_keeps_kinds (P : Path) :
  exists R, reversed P = inr R
            /\ has_lines R = has_lines P
            /\ has_curves R = has_curves P.
Proof.
  destruct P as [s [|c cs]].
  - exists (Path_init NULLVEC). repeat split.
  - eexists; split; [apply reversed_run|]. unfold has_lines, has_curves.
    cbn [_commands]. split.
    + exact (existsb_kind_reversed (fun t => Command_eqb t LINE_TO)
               (c :: cs) eq_refl s).
    + exact (existsb_kind_reversed (fun t => existsb (Command_eqb t) AnyCurve)
               (c :: cs) eq_refl s).
Qed.

Lemma reversed_commands_length (cmds : list PathElement) : forall s : Vec3,
  well_typed cmds = true ->
  length (reversed_commands s cmds) = length cmds.
Proof.
  induction cmds as [|c rest IH]; intros s Hwt; [reflexivity|].
  simpl in Hwt. apply andb_prop in Hwt as [Hc Hrest].
  destruct (reversed_cmd_typed c s Hc) as (y & Hy & _).
  simpl. rewrite Hy, length_app, (IH _ Hrest). simpl. lia.
Qed.

(** X4. The reversed path of a path with commands (all LineTo, Curve3To or
    Curve4To) starts at the old end, ends at the old start and has as many
    commands; its [is_closed] is the closeness test with the two points
    swapped. *)
Theorem reversed_swaps_ends (s : Vec3) (c : PathElement)
  (cs : list PathElement) (Hwt : well_typed (c :: cs) = true) :
  exists R, reversed (mkPath s (c :: cs)) = inr R
            /\ start R = end_ (mkPath s (c :: cs))
            /\ end_ R = s
            /\ len R = len (mkPath s (c :: cs))
            /\ is_closed R = isclose (end_ (mkPath s (c :: cs))) s None.
Proof.
  eexists; split; [apply reversed_run|].
  assert (He : end_ (mkPath (end_ (mkPath s (c :: cs)))
                            (reversed_commands s (c :: cs))) = s)
    by (apply reversed_commands_end; [exact Hwt | discriminate]).
  split; [reflexivity|]. split; [exact He|]. split.
  - unfold len. cbn [_commands]. now apply reversed_commands_length.
  - unfold is_closed. now rewrite He.
Qed.

(** *** from_vertices *)

Lemma for_each_line_to (vs : list Vec3) : forall P : Path,
  for_each vs line_to P
  = (inr tt, mkPath (_start P) (_commands P ++ map LineTo vs)).
Proof.
  induction vs as [|v vs IH]; intro P; simpl.
  - unfold ret. now rewrite app_nil_r, path_eta.
  - unfold bind, line_to, append, modify. rewrite IH. simpl.
    now rewrite <- app_assoc.
Qed.

Lemma from_vertices_open (v0 v1 : Vec3) (rest : list Vec3) :
  from_vertices (v0 :: v1 :: rest) false
  = mkPath v0 (map LineTo (v1 :: rest)).
Proof.
  unfold from_vertices, exec, bind. rewrite for_each_line_to. reflexivity.
Qed.

Lemma end_of_lines (vs : list Vec3) : forall s : Vec3,
  end_ (mkPath s (map LineTo vs)) = last vs s.
Proof.
  induction vs as [|v vs IH]; intro s; [reflexivity|].
  cbn [map]. rewrite end_cons. cbn [cmd_end]. rewrite IH.
  now rewrite last_cons_cons.
Qed.

Lemma approximate_loop_lines a3 a4 (vs : list Vec3) : forall s : Vec3,
  approximate_loop a3 a4 s (map (@LineTo float) vs) = (vs, None).
Proof.
  induction vs as [|v vs IH]; intro s; [reflexivity|].
  simpl. now rewrite IH.
Qed.

Lemma flat_map_lines (vs : list Vec3) :
  flat_map control_vertices_cmd (map (@LineTo float) vs) = vs.
Proof.
  induction vs as [|v vs IH]; [reflexivity|]. simpl. now rewrite IH.
Qed.

(** X5. [from_vertices] drops its input when there are fewer than two
    vertices and returns [Path()] at the origin.  Given two or more
    vertices and close=False, the path is the first vertex followed by one
    LineTo per further vertex, and [control_vertices], [approximate] and
    [flattening] all give the vertex list back, whatever the segment count,
    the distance and the samplers are. *)
Theorem from_vertices_round_trip :
  (forall close_ : bool,
      from_vertices [] close_ = Path_init NULLVEC
      /\ forall v : Vec3, from_vertices [v] close_ = Path_init NULLVEC)
  /\ (forall (v0 v1 : Vec3) (rest : list Vec3) (n : Z) (d : float),
         from_vertices (v0 :: v1 :: rest) false
         = mkPath v0 (map LineTo (v1 :: rest))
         /\ control_vertices (from_vertices (v0 :: v1 :: rest) false)
            = v0 :: v1 :: rest
         /\ approximate n (from_vertices (v0 :: v1 :: rest) false)
            = (v0 :: v1 :: rest, None)
         /\ flattening d n (from_vertices (v0 :: v1 :: rest) false)
            = (v0 :: v1 :: rest, None)).
Proof.
  split; [intro close_; split; reflexivity|].
  intros v0 v1 rest n d. rewrite from_vertices_open.
  split; [reflexivity|]. split.
  - cbn [map]. rewrite control_vertices_cons.
    change (LineTo v1 :: map LineTo rest) with (map (@LineTo float) (v1 :: rest)).
    now rewrite flat_map_lines.
  - unfold approximate, flattening, _approximate. cbn [_commands _start map].
    change (LineTo v1 :: map LineTo rest) with (map (@LineTo float) (v1 :: rest)).
    rewrite !approximate_loop_lines. split; reflexivity.
Qed.

Lemma from_vertices_close_run (v0 v1 : Vec3) (rest : list Vec3) :
  from_vertices (v0 :: v1 :: rest) true
  = mkPath v0 (map LineTo (v1 :: rest)
               ++ (if isclose v0 (last (v1 :: rest) v0) None
                   then [] else [LineTo v0])).
Proof.
  unfold from_vertices, exec, bind. rewrite for_each_line_to.
  cbn [_start _commands Path_init app]. rewrite close_run.
  unfold is_closed. cbn [_start _commands snd start].
  now rewrite (end_of_lines (v1 :: rest) v0).
Qed.

(** X6. [from_vertices] with close=True and two or more vertices appends a
    closing LineTo to the first vertex exactly when the first vertex is not
    close to the last one; when the first vertex compares close to itself,
    the path it returns is closed. *)
Theorem from_vertices_closed (v0 v1 : Vec3) (rest : list Vec3) :
  from_vertices (v0 :: v1 :: rest) true
  = mkPath v0 (map LineTo (v1 :: rest)
               ++ (if isclose v0 (last (v1 :: rest) v0) None
                   then [] else [LineTo v0]))
  /\ (isclose v0 v0 None = true ->
      is_closed (from_vertices (v0 :: v1 :: rest) true) = true).
Proof.
  pose proof (from_vertices_close_run v0 v1 rest) as E.
  split; [exact E | intro Hrefl]. rewrite E. unfold is_closed. cbn [_start].
  destruct (isclose v0 (last (v1 :: rest) v0) None) eqn:Hc.
  - rewrite app_nil_r, (end_of_lines (v1 :: rest) v0). exact Hc.
  - rewrite end_snoc. exact Hrefl.
Qed.

(** *** Frame change *)

Lemma setitem_middle {A} (done : list A) (v c : A) (rest : list A) :
  setitem (length done) v (done ++ c :: rest) = done ++ v :: rest.
Proof.
  induction done as [|a done IH]; simpl; [reflexivity|]. now rewrite IH.
Qed.

Lemma cmd_to_wcs_typed (cmd : PathElement) (ocs : OCS) (elevation : float) :
  supported cmd = true ->
  cmd_to_wcs cmd ocs elevation
  = inr (map_cmd (fun v => ocs_to_wcs ocs (replace_z v elevation)) cmd).
Proof. destruct cmd; simpl; intro H; try discriminate; reflexivity. Qed.

Lemma to_wcs_loop_typed (ocs : OCS) (elevation : float)
  (todo : list PathElement) :
  forall (done : list PathElement) (s : Vec3),
    well_typed todo = true ->
    for_each (combine (seq (length done) (length todo)) todo)
      (fun '(i, cmd) =>
         bind (lift (cmd_to_wcs cmd ocs elevation)) (fun cmd' =>
           modify (fun p => mkPath (_start p) (setitem i cmd' (_commands p)))))
      (mkPath s (done ++ todo))
    = (inr tt,
       mkPath s (done ++ map (map_cmd (fun v =>
                   ocs_to_wcs ocs (replace_z v elevation))) todo)).
Proof.
  induction todo as [|c rest IH]; intros done s Hwt; [reflexivity|].
  simpl in Hwt. apply andb_prop in Hwt as [Hc Hrest].
  cbn [length seq combine for_each]. unfold bind at 1.
  unfold bind at 1, lift at 1. rewrite (cmd_to_wcs_typed c ocs elevation Hc).
  unfold modify at 1. cbn [_start _commands]. rewrite setitem_middle.
  specialize (IH (done ++ [map_cmd (fun v =>
                     ocs_to_wcs ocs (replace_z v elevation)) c]) s Hrest).
  rewrite length_app, Nat.add_1_r, <- !app_assoc in IH. exact IH.
Qed.

(** X7. On a path of LineTo, Curve3To and Curve4To commands [_to_wcs]
    never raises; it maps the start point and every point of every command
    to the world frame at the given elevation, and keeps the kinds and the
    order of the commands. *)
Theorem to_wcs_maps_every_point (ocs : OCS) (elevation : float) (P : Path)
  (Hwt : well_typed (_commands P) = true) :
  _to_wcs ocs elevation P
  = (inr tt,
     map_path (fun v => ocs_to_wcs ocs (replace_z v elevation)) P).
Proof.
  unfold _to_wcs. unfold bind at 1, modify at 1. unfold bind at 1, gets at 1.
  cbn [_commands _start].
  exact (to_wcs_loop_typed ocs elevation (_commands P) [] _ Hwt).
Qed.

(** *** Transform *)

Lemma cmd_end_map (f : Vec3 -> Vec3) (cmd : PathElement) :
  cmd_end (map_cmd f cmd) = f (cmd_end cmd).
Proof. destruct cmd; reflexivity. Qed.

Lemma supported_map (f : Vec3 -> Vec3) (cmd : PathElement) :
  supported (map_cmd f cmd) = supported cmd.
Proof. destruct cmd; reflexivity. Qed.

Lemma well_typed_map (f : Vec3 -> Vec3) (cmds : list PathElement) :
  well_typed (map (map_cmd f) cmds) = well_typed cmds.
Proof.
  induction cmds as [|c rest IH]; [reflexivity|].
  simpl. now rewrite supported_map, IH.
Qed.

Lemma end_map_path (f : Vec3 -> Vec3) (P : Path) :
  end_ (map_path f P) = f (end_ P).
Proof.
  destruct P as [s cmds]. revert s.
  induction cmds as [|c rest IH]; intro s; [reflexivity|].
  unfold map_path in *. cbn [_start _commands map] in *.
  rewrite !end_cons, cmd_end_map.
  specialize (IH (cmd_end c)). rewrite <- IH. reflexivity.
Qed.

Lemma flat_map_vertices_map (f : Vec3 -> Vec3) (cmds : list PathElement) :
  flat_map control_vertices_cmd (map (map_cmd f) cmds)
  = map f (flat_map control_vertices_cmd cmds).
Proof.
  induction cmds as [|d ds IH]; [reflexivity|].
  cbn [map flat_map]. rewrite map_app, IH. f_equal.
  destruct d; reflexivity.
Qed.

Lemma control_vertices_map_path (f : Vec3 -> Vec3) (P : Path) :
  control_vertices (map_path f P) = map f (control_vertices P).
Proof.
  destruct P as [s [|c cs]]; [reflexivity|].
  unfold map_path. cbn [_start _commands].
  change (map (map_cmd f) (c :: cs))
    with (map_cmd f c :: map (map_cmd f) cs).
  rewrite !control_vertices_cons.
  change (map_cmd f c :: map (map_cmd f) cs)
    with (map (map_cmd f) (c :: cs)).
  now rewrite flat_map_vertices_map.
Qed.

Lemma transform_loop_run (m : Matrix44) (Hm : transform_vertices_pointwise m)
  (cmds : list PathElement) : forall Q : Path,
  transform_loop m cmds Q
  = if well_typed cmds
    then inr (mkPath (_start Q)
                (_commands Q ++ map (map_cmd (m44_transform m)) cmds))
    else inl (Invalid_command START_PATH).
Proof.
  induction cmds as [|c rest IH]; intro Q.
  - simpl. now rewrite app_nil_r, path_eta.
  - destruct c as [e|e ctrl|e c1 c2|e]; cbn [transform_loop well_typed forallb];
      try rewrite Hm; cbn [map]; try rewrite IH;
      unfold exec, line_to, curve3_to, curve4_to, append, modify;
      cbn [snd _start _commands supported cmd_type andb];
      try reflexivity;
      fold (well_typed rest); destruct (well_typed rest);
      try reflexivity; now rewrite <- app_assoc.
Qed.

(** X8. With a matrix whose [transform_vertices] yields the [transform] of
    each vertex, [transform(m)] of a path of LineTo, Curve3To and Curve4To
    commands is a new path with the start point and every point of every
    command transformed, kinds and order kept; its end point is the
    transformed end point and its control vertices are the transformed
    control vertices.  On a path holding another kind of command it raises
    ValueError('Invalid command: ...'). *)
Theorem transform_maps_every_point (m : Matrix44)
  (Hm : transform_vertices_pointwise m) (P : Path) :
  transform m P
  = (if well_typed (_commands P)
     then inr (map_path (m44_transform m) P)
     else inl (Invalid_command START_PATH))
  /\ end_ (map_path (m44_transform m) P) = m44_transform m (end_ P)
  /\ control_vertices (map_path (m44_transform m) P)
     = map (m44_transform m) (control_vertices P)
  /\ len (map_path (m44_transform m) P) = len P.
Proof.
  split; [|split; [apply end_map_path|split;
                   [apply control_vertices_map_path|]]].
  - unfold transform. now rewrite (transform_loop_run m Hm).
  - unfold len, map_path. cbn [_commands]. apply length_map.
Qed.

Lemma reversed_commands_map (f : Vec3 -> Vec3) (cmds : list PathElement) :
  forall s : Vec3,
    reversed_commands (f s) (map (map_cmd f) cmds)
    = map (map_cmd f) (reversed_commands s cmds).
Proof.
  induction cmds as [|c rest IH]; intro s; [reflexivity|].
  cbn [map reversed_commands]. rewrite cmd_end_map, IH, map_app. f_equal.
  destruct c; reflexivity.
Qed.

Lemma reversed_commands_typed (cmds : list PathElement) : forall s : Vec3,
  well_typed (reversed_commands s cmds) = true.
Proof.
  induction cmds as [|c rest IH]; intro s; [reflexivity|].
  simpl. rewrite well_typed_app, IH. now destruct c.
Qed.

(** X9. Transforming and reversing commute on a path with commands (all
    LineTo, Curve3To or Curve4To): reversing the transformed path gives the
    same path as transforming the reversed one. *)
Theorem transform_commutes_with_reversed (m : Matrix44)
  (Hm : transform_vertices_pointwise m)
  (s : Vec3) (c : PathElement) (cs : list PathElement)
  (Hwt : well_typed (c :: cs) = true) :
  exists R T Q : Path,
    reversed (mkPath s (c :: cs)) = inr R
    /\ transform m (mkPath s (c :: cs)) = inr T
    /\ reversed T = inr Q
    /\ transform m R = inr Q.
Proof.
  exists (mkPath (end_ (mkPath s (c :: cs))) (reversed_commands s (c :: cs))).
  exists (map_path (m44_transform m) (mkPath s (c :: cs))).
  exists (map_path (m44_transform m)
            (mkPath (end_ (mkPath s (c :: cs)))
                    (reversed_commands s (c :: cs)))).
  split; [apply reversed_run|]. split.
  - unfold transform. rewrite (transform_loop_run m Hm). cbn [_commands].
    now rewrite Hwt.
  - split.
    + unfold map_path at 1. cbn [_start _commands map].
      rewrite reversed_run.
      change (map_cmd (m44_transform m) c :: map (map_cmd (m44_transform m)) cs)
        with (map (map_cmd (m44_transform m)) (c :: cs)).
      rewrite reversed_commands_map.
      pose proof (end_map_path (m44_transform m) (mkPath s (c :: cs))) as He.
      unfold map_path in He. cbn [_start _commands] in He. rewrite He.
      reflexivity.
    + unfold transform. rewrite (transform_loop_run m Hm). cbn [_commands].
      now rewrite reversed_commands_typed.
Qed.

(** *** Orientation *)

(** X10. When the orientation test answers [b] on the control vertices of
    a path with commands (all LineTo, Curve3To or Curve4To) and the opposite
    on the same vertices in reverse order, [clockwise()] returns a path the
    test calls clockwise and [counter_clockwise()] one it calls
    counter-clockwise; one of the two is a copy of the path and the other
    its reversal. *)
Theorem clockwise_normalizes (s : Vec3) (c : PathElement)
  (cs : list PathElement) (b : bool)
  (Hwt : well_typed (c :: cs) = true)
  (Hb : math_has_clockwise_orientation
          (control_vertices (mkPath s (c :: cs))) = inr b)
  (Hflip : math_has_clockwise_orientation
             (rev (control_vertices (mkPath s (c :: cs)))) = inr (negb b)) :
  exists CW CCW : Path,
    clockwise (mkPath s (c :: cs)) = inr CW
    /\ counter_clockwise (mkPath s (c :: cs)) = inr CCW
    /\ has_clockwise_orientation CW = inr true
    /\ has_clockwise_orientation CCW = inr false
    /\ ((CW = mkPath s (c :: cs) /\ reversed (mkPath s (c :: cs)) = inr CCW)
        \/ (CCW = mkPath s (c :: cs)
            /\ reversed (mkPath s (c :: cs)) = inr CW)).
Proof.
  pose proof (reversed_run s c cs) as HR.
  pose proof (control_vertices_reversed_run s c cs Hwt) as HRv.
  set (R := mkPath (end_ (mkPath s (c :: cs)))
                   (reversed_commands s (c :: cs))) in *.
  unfold clockwise, counter_clockwise, has_clockwise_orientation.
  rewrite Hb. destruct b; cbn [negb] in Hflip.
  - exists (mkPath s (c :: cs)), R. rewrite HR, HRv, Hflip, Hb.
    repeat split. left. split; reflexivity.
  - exists R, (mkPath s (c :: cs)). rewrite HR, HRv, Hflip, Hb.
    repeat split. right. split; reflexivity.
Qed.

(** *** Ellipses and splines *)


(** *** Curve chains, continued *)

Lemma chain4_end (curves : list (Bezier4P float)) :
  forall (running s : Vec3) (cmds : list PathElement) (d : Bezier4P float),
    curves <> [] ->
    end_ (mkPath s (cmds ++ chain4 running curves))
    = last_point4 (last curves d).
Proof.
  induction curves as [|[[[[p0 c1] c2] e]] rest IH];
    intros running s cmds d Hne; [congruence|].
  cbn [chain4 control_points4].
  destruct rest as [|c' rest'].
  - cbn [chain4 last]. rewrite app_assoc. now rewrite end_snoc.
  - replace (cmds ++ (if isclose p0 running (Some tol_1e_9)
                      then [] else [LineTo p0])
             ++ Curve4To e c1 c2 :: chain4 e (c' :: rest'))
      with ((cmds ++ (if isclose p0 running (Some tol_1e_9)
                      then [] else [LineTo p0]) ++ [Curve4To e c1 c2])
            ++ chain4 e (c' :: rest'))
      by (now rewrite <- !app_assoc).
    rewrite (IH e s _ d); [reflexivity | discriminate].
Qed.

Lemma chain3_end (curves : list (Bezier3P float)) :
  forall (running s : Vec3) (cmds : list PathElement) (d : Bezier3P float),
    curves <> [] ->
    end_ (mkPath s (cmds ++ chain3 running curves))
    = last_point3 (last curves d).
Proof.
  induction curves as [|[[[p0 c1] e]] rest IH];
    intros running s cmds d Hne; [congruence|].
  cbn [chain3 control_points3].
  destruct rest as [|c' rest'].
  - cbn [chain3 last]. rewrite app_assoc. now rewrite end_snoc.
  - replace (cmds ++ (if isclose p0 running (Some tol_1e_9)
                      then [] else [LineTo p0])
             ++ Curve3To e c1 :: chain3 e (c' :: rest'))
      with ((cmds ++ (if isclose p0 running (Some tol_1e_9)
                      then [] else [LineTo p0]) ++ [Curve3To e c1])
            ++ chain3 e (c' :: rest'))
      by (now rewrite <- !app_assoc).
    rewrite (IH e s _ d); [reflexivity | discriminate].
Qed.

Lemma chain4_length (curves : list (Bezier4P float)) : forall running : Vec3,
  (length curves <= length (chain4 running curves) <= 2 * length curves)%nat.
Proof.
  induction curves as [|[[[[p0 c1] c2] e]] rest IH]; intro running;
    [simpl; lia|].
  cbn [chain4 control_points4]. rewrite length_app. cbn [length].
  specialize (IH e).
  destruct (isclose p0 running (Some tol_1e_9)); simpl; lia.
Qed.

Lemma chain3_length (curves : list (Bezier3P float)) : forall running : Vec3,
  (length curves <= length (chain3 running curves) <= 2 * length curves)%nat.
Proof.
  induction curves as [|[[[p0 c1] e]] rest IH]; intro running;
    [simpl; lia|].
  cbn [chain3 control_points3]. rewrite length_app. cbn [length].
  specialize (IH e).
  destruct (isclose p0 running (Some tol_1e_9)); simpl; lia.
Qed.

Lemma last_reversed_chain {B} (reverse : B -> B) (c0 : B) (cs : list B)
  (d : B) : last (rev (map reverse (c0 :: cs))) d = reverse c0.
Proof. cbn [map rev]. apply last_last. Qed.

(** X12. After [add_curves4] ([add_curves3]) of a non-empty list the path
    ends at the far end of the chain: the end point of the last curve, or
    the start point of the first curve when the chain was taken backwards.
    Between one and two commands are appended per curve. *)
Theorem add_curves_end (P : Path) :
  (forall (c0 : Bezier4P float) (cs : list (Bezier4P float)),
      end_ (exec (add_curves4 (c0 :: cs)) P)
      = (if isclose (end_ P) (last_point4 (last cs c0)) None
         then first_point4 c0 else last_point4 (last cs c0))
      /\ (len P + S (length cs) <= len (exec (add_curves4 (c0 :: cs)) P)
          <= len P + 2 * S (length cs))%nat)
  /\ (forall (c0 : Bezier3P float) (cs : list (Bezier3P float)),
         end_ (exec (add_curves3 (c0 :: cs)) P)
         = (if isclose (end_ P) (last_point3 (last cs c0)) None
            then first_point3 c0 else last_point3 (last cs c0))
         /\ (len P + S (length cs) <= len (exec (add_curves3 (c0 :: cs)) P)
             <= len P + 2 * S (length cs))%nat).
Proof.
  split; intros c0 cs; unfold exec, len.
  - rewrite add_curves4_run. cbn [snd _commands]. rewrite length_app.
    destruct (isclose (end_ P) (last_point4 (last cs c0)) None); split.
    + rewrite (chain4_end _ _ _ _ c0);
        [|unfold reversed_chain4; cbn [map rev];
          now destruct (rev (map reverse4 cs))].
      unfold reversed_chain4. rewrite last_reversed_chain.
      now destruct c0 as [[[[p0 p1] p2] p3]].
    + unfold reversed_chain4.
      pose proof (chain4_length (rev (map reverse4 (c0 :: cs))) (end_ P))
        as H.
      rewrite length_rev, length_map in H. cbn [length] in H. lia.
    + rewrite (chain4_end _ _ _ _ c0); [|discriminate].
      now rewrite last_cons_cons.
    + pose proof (chain4_length (c0 :: cs) (end_ P)) as H.
      cbn [length] in H. lia.
  - rewrite add_curves3_run. cbn [snd _commands]. rewrite length_app.
    destruct (isclose (end_ P) (last_point3 (last cs c0)) None); split.
    + rewrite (chain3_end _ _ _ _ c0);
        [|unfold reversed_chain3; cbn [map rev];
          now destruct (rev (map reverse3 cs))].
      unfold reversed_chain3. rewrite last_reversed_chain.
      now destruct c0 as [[[p0 p1] p2]].
    + unfold reversed_chain3.
      pose proof (chain3_length (rev (map reverse3 (c0 :: cs))) (end_ P))
        as H.
      rewrite length_rev, length_map in H. cbn [length] in H. lia.
    + rewrite (chain3_end _ _ _ _ c0); [|discriminate].
      now rewrite last_cons_cons.
    + pose proof (chain3_length (c0 :: cs) (end_ P)) as H.
      cbn [length] in H. lia.
Qed.

(** *** Straight polylines *)

Lemma polyline_loop_straight (Hz : truthy fzero = false)
  (points : list (float * float * float)) :
  forall (prev : Vec3) (prev_bulge : float) (P : Path),
    straight points -> truthy prev_bulge = false ->
    exists last_bulge,
      polyline_loop points (Some prev) prev_bulge P
      = (inr last_bulge,
         mkPath (_start P)
                (_commands P ++ map LineTo (polyline_points points)))
      /\ truthy last_bulge = false.
Proof.
  induction points as [|[[x y] bulge] rest IH];
    intros prev prev_bulge P Hs Hpb.
  - exists prev_bulge. split; [|exact Hpb].
    simpl. unfold ret. now rewrite app_nil_r, path_eta.
  - inversion Hs as [|? ? Hb Hrest]; subst.
    cbn [polyline_loop]. rewrite Hb, Hpb.
    unfold bind, line_to, append, modify.
    destruct (IH (Vec3_xy x y) fzero
                 (mkPath (_start P) (_commands P ++ [LineTo (Vec3_xy x y)]))
                 Hrest Hz) as (lb & Hrun & Hlb).
    exists lb. split; [|exact Hlb]. rewrite Hrun.
    cbn [_start _commands polyline_points map]. now rewrite <- app_assoc.
Qed.

Lemma polyline_loop_first (x y bulge : float)
  (rest : list (float * float * float)) (prev_bulge : float) (P : Path) :
  polyline_loop ((x, y, bulge) :: rest) None prev_bulge P
  = polyline_loop rest (Some (Vec3_xy x y))
      (if abs_lt bulge tol_1e_6 then fzero else bulge)
      (mkPath (Vec3_xy x y) (_commands P)).
Proof. reflexivity. Qed.

(** X13. With a falsy zero, the identity frame and zero elevation:
    [add_2d_polyline] without points does nothing when close=False and is
    [close()] when close=True; with two or more points whose bulges are all
    below 1e-6 it makes, on a path without commands, the path that
    [from_vertices] makes from the (x, y) points with the same close flag. *)
Theorem add_2d_polyline_straight (Hz : truthy fzero = false)
  (ocs : OCS) (elevation : float)
  (Ho : ocs_transform ocs = false) (He : truthy elevation = false) :
  (forall P : Path,
      add_2d_polyline [] false ocs elevation P = (inr tt, P)
      /\ add_2d_polyline [] true ocs elevation P = close P)
  /\ (forall (p0 p1 : float * float * float)
             (rest : list (float * float * float))
             (close_ : bool) (s0 : Vec3),
         straight (p0 :: p1 :: rest) ->
         add_2d_polyline (p0 :: p1 :: rest) close_ ocs elevation
                         (mkPath s0 [])
         = (inr tt,
            from_vertices (polyline_points (p0 :: p1 :: rest)) close_)).
Proof.
  split.
  - intro P. rewrite !add_2d_polyline_steps.
    unfold bind, closing_step, frame_step, polyline_loop, ret, gets.
    rewrite Ho, He, Hz. cbn [orb andb]. split; [reflexivity|].
    rewrite close_run. unfold is_closed, start, bind, gets.
    destruct (isclose (_start P) (end_ P) None); cbn [negb andb].
    + unfold ret. now rewrite app_nil_r, path_eta.
    + reflexivity.
  - intros [[x0 y0] b0] p1 rest close_ s0 Hs.
    inversion Hs as [|? ? Hb0 Hrest]; subst.
    rewrite add_2d_polyline_steps. unfold bind at 1.
    rewrite polyline_loop_first, Hb0. cbn [_commands].
    destruct (polyline_loop_straight Hz (p1 :: rest) (Vec3_xy x0 y0) fzero
                (mkPath (Vec3_xy x0 y0) []) Hrest Hz) as (lb & Hrun & Hlb).
    rewrite Hrun. cbn [_start _commands app].
    unfold bind at 1, closing_step, frame_step.
    rewrite Ho, He, Hlb. cbn [orb].
    unfold bind, gets, start. cbn [_start].
    destruct p1 as [[x1 y1] b1].
    cbn [polyline_points map] in *.
    destruct close_.
    + rewrite from_vertices_close_run. cbn [andb].
      change (LineTo (Vec3_xy x1 y1)
                :: map LineTo
                     (map (fun '(x, y, _) => Vec3_xy x y) rest))
        with (map (@LineTo float)
                  (Vec3_xy x1 y1
                     :: map (fun '(x, y, _) => Vec3_xy x y) rest)).
      rewrite end_of_lines.
      destruct (isclose (Vec3_xy x0 y0)
                  (last (Vec3_xy x1 y1
                           :: map (fun '(x, y, _) => Vec3_xy x y) rest)
                        (Vec3_xy x0 y0)) None); cbn [negb].
      * unfold ret. now rewrite app_nil_r.
      * reflexivity.
    + rewrite from_vertices_open. reflexivity.
Qed.

(** *** Sampling, continued *)

Lemma approximate_loop_app a3 a4
  (H3 : forall s c e, reaches_end (a3 s c e) e)
  (H4 : forall s c1 c2 e, reaches_end (a4 s c1 c2 e) e)
  (pre : list PathElement) :
  forall (s : Vec3) (rest : list PathElement),
    well_typed pre = true ->
    approximate_loop a3 a4 s (pre ++ rest)
    = (sampled a3 a4 s pre
         ++ fst (approximate_loop a3 a4 (end_ (mkPath s pre)) rest),
       snd (approximate_loop a3 a4 (end_ (mkPath s pre)) rest)).
Proof.
  induction pre as [|c pre IH]; intros s rest Hwt.
  - cbn [app sampled]. change (end_ (mkPath s [])) with s.
    now destruct (approximate_loop a3 a4 s rest).
  - simpl in Hwt. apply andb_prop in Hwt as [Hc Hpre].
    cbn [app approximate_loop sampled].
    destruct (approximate_cmd_typed a3 a4 H3 H4 s c Hc) as [E _].
    rewrite E, (IH (cmd_end c) rest Hpre), end_cons.
    cbn [fst snd]. now rewrite app_assoc.
Qed.

(** X14. With samplers that run normally, n >= 1 and d > 0: on a path
    whose commands are LineTo, Curve3To or Curve4To up to a first command
    of another kind, [approximate] and [flattening] yield the start point
    and the points of the commands before it, then raise; nothing of the
    commands after it is yielded. *)
Theorem sampling_stops_at_foreign (HC : samplers_reach_end)
  (n : Z) (d : float) (Hn : (1 <= n)%Z) (Hd : is_pos d = true)
  (s e : Vec3) (pre post : list PathElement)
  (Hpre : well_typed pre = true) :
  approximate n (mkPath s (pre ++ External e :: post))
  = (s :: sampled (approximate_curve3 n) (approximate_curve4 n) s pre,
     Some (ValueError_invalid_command START_PATH))
  /\ flattening d n (mkPath s (pre ++ External e :: post))
     = (s :: sampled (flattening_curve3 d n) (flattening_curve4 d n) s pre,
        Some (ValueError_invalid_command START_PATH)).
Proof.
  destruct (approximate_samplers HC n Hn) as [A3 A4].
  destruct (flattening_samplers HC d n Hd Hn) as [F3 F4].
  assert (G : forall a3 a4,
             (forall s c e, reaches_end (a3 s c e) e) ->
             (forall s c1 c2 e, reaches_end (a4 s c1 c2 e) e) ->
             _approximate a3 a4 (mkPath s (pre ++ External e :: post))
             = (s :: sampled a3 a4 s pre,
                Some (ValueError_invalid_command START_PATH))).
  { intros a3 a4 H3 H4. unfold _approximate. cbn [_commands _start].
    rewrite (approximate_loop_app a3 a4 H3 H4 pre s _ Hpre).
    cbn [approximate_loop approximate_cmd fst snd cmd_type].
    rewrite app_nil_r. now destruct pre. }
  split; [exact (G _ _ A3 A4) | exact (G _ _ F3 F4)].
Qed.

(** X15. With samplers that run normally, n >= 1 and d > 0: after
    [line_to(v)] on a path of LineTo, Curve3To and Curve4To commands,
    [approximate] and [flattening] yield what they yielded before (the
    start point alone, if the path had no commands) followed by [v]. *)
Theorem sampling_after_line_to (HC : samplers_reach_end)
  (n : Z) (d : float) (Hn : (1 <= n)%Z) (Hd : is_pos d = true)
  (P : Path) (v : Vec3) (Hwt : well_typed (_commands P) = true) :
  approximate n (exec (line_to v) P)
  = ((match _commands P with
      | [] => [start P]
      | _ :: _ => fst (approximate n P)
      end) ++ [v], None)
  /\ flattening d n (exec (line_to v) P)
     = ((match _commands P with
         | [] => [start P]
         | _ :: _ => fst (flattening d n P)
         end) ++ [v], None).
Proof.
  destruct (approximate_samplers HC n Hn) as [A3 A4].
  destruct (flattening_samplers HC d n Hd Hn) as [F3 F4].
  assert (G : forall a3 a4,
             (forall s c e, reaches_end (a3 s c e) e) ->
             (forall s c1 c2 e, reaches_end (a4 s c1 c2 e) e) ->
             _approximate a3 a4 (exec (line_to v) P)
             = ((match _commands P with
                 | [] => [start P]
                 | _ :: _ => fst (_approximate a3 a4 P)
                 end) ++ [v], None)).
  { intros a3 a4 H3 H4. destruct P as [s cmds]. cbn [_commands] in Hwt.
    unfold exec, line_to, append, modify, _approximate.
    cbn [snd _commands _start start].
    rewrite (approximate_loop_app a3 a4 H3 H4 cmds s _ Hwt).
    cbn [approximate_loop approximate_cmd fst snd cmd_end].
    rewrite (approximate_loop_typed a3 a4 H3 H4 cmds s Hwt).
    destruct cmds; reflexivity. }
  split; [exact (G _ _ A3 A4) | exact (G _ _ F3 F4)].
Qed.

End PathTheoryMore.

(* ------------------------------------------------------------------ *)
(** ** Properties of the tag-level repairs *)

Lemma tag_eqb_refl (t : DXFTag) : tag_eqb t t = true.
Proof.
  unfold tag_eqb. now rewrite Z.eqb_refl, String.eqb_refl.
Qed.

Lemma tag_eqb_eq (a b : DXFTag) : tag_eqb a b = true -> a = b.
Proof.
  destruct a as [ca va], b as [cb vb]. unfold tag_eqb; simpl.
  intro H. apply andb_prop in H as [Hc Hv].
  apply Z.eqb_eq in Hc. apply String.eqb_eq in Hv. now subst.
Qed.

Lemma insert_tag_perm (t : DXFTag) (l : list DXFTag) :
  Permutation (t :: l) (insert_tag t l).
Proof.
  induction l as [|h rest IH]; simpl; [reflexivity|].
  destruct (tag_leb t h); [reflexivity|].
  rewrite perm_swap. now apply perm_skip.
Qed.

Lemma sort_tags_perm (l : list DXFTag) : Permutation l (sort_tags l).
Proof.
  induction l as [|t rest IH]; simpl; [reflexivity|].
  rewrite <- insert_tag_perm. now apply perm_skip.
Qed.

Lemma filter_split_perm {A} (p : A -> bool) (l : list A) :
  Permutation l (filter p l ++ filter (fun a => negb (p a)) l).
Proof.
  induction l as [|a rest IH]; simpl; [reflexivity|].
  destruct (p a); simpl.
  - now apply perm_skip.
  - now apply Permutation_cons_app.
Qed.

Lemma slice_insert_perm (index : nat) (items l : list DXFTag) :
  Permutation (items ++ l) (slice_insert index items l).
Proof.
  unfold slice_insert. rewrite <- (firstn_skipn index l) at 1.
  apply Permutation_app_swap_app.
Qed.

Lemma list_index_in (x : DXFTag) (l : list DXFTag) :
  In x l -> exists index, list_index x l = Some index.
Proof.
  induction l as [|h rest IH]; intro H; [destruct H|].
  destruct H as [Heq | Hin]; simpl.
  - subst. rewrite tag_eqb_refl. eauto.
  - destruct (tag_eqb h x); [eauto|].
    destruct (IH Hin) as [i Hi]. rewrite Hi. simpl. eauto.
Qed.

Lemma filter_all {A} (p : A -> bool) (l : list A) :
  Forall (fun a => p a = true) l -> filter p l = l.
Proof.
  induction 1 as [|a rest Ha _ IH]; simpl; [reflexivity|].
  now rewrite Ha, IH.
Qed.

Lemma filter_none {A} (p : A -> bool) (l : list A) :
  Forall (fun a => p a = false) l -> filter p l = [].
Proof.
  induction 1 as [|a rest Ha _ IH]; simpl; [reflexivity|].
  now rewrite Ha.
Qed.

Lemma filter_forall {A} (p : A -> bool) (l : list A) :
  Forall (fun a => p a = true) (filter p l).
Proof.
  induction l as [|a rest IH]; simpl; [constructor|].
  destruct (p a) eqn:E; [now constructor | exact IH].
Qed.

Lemma Forall_firstn {A} (P : A -> Prop) (n : nat) (l : list A) :
  Forall P l -> Forall P (firstn n l).
Proof.
  intro H. revert n. induction H as [|a rest Ha _ IH]; intros [|n]; simpl;
    constructor; auto.
Qed.

Lemma Forall_skipn {A} (P : A -> Prop) (n : nat) (l : list A) :
  Forall P l -> Forall P (skipn n l).
Proof.
  intro H. revert n. induction H as [|a rest Ha Hrest IH]; intros [|n];
    simpl; auto.
Qed.

(** what [fix_line_coordinate_order] does with a LINE of 4 or 6
    coordinate tags *)
Lemma slice_insert_keeps_others (index : nat) (items l : list DXFTag) :
  Forall (fun t => is_line_coord t = true) items ->
  Forall (fun t => negb (is_line_coord t) = true) l ->
  filter (fun t => negb (is_line_coord t)) (slice_insert index items l) = l.
Proof.
  intros Hitems Hl. unfold slice_insert. rewrite !filter_app.
  rewrite (filter_all _ _ (Forall_firstn _ index l Hl)).
  rewrite (filter_all _ _ (Forall_skipn _ index l Hl)).
  rewrite (filter_none _ items).
  - apply firstn_skipn.
  - eapply Forall_impl; [|exact Hitems]. simpl. intros a Ha. now rewrite Ha.
Qed.

Lemma fix_line_coordinate_order_run (tag0 : DXFTag) (rest : list DXFTag) :
  exists out,
    fix_line_coordinate_order (tag0 :: rest) = inr out
    /\ Permutation (tag0 :: rest) out
    /\ filter (fun t => negb (is_line_coord t)) out
       = filter (fun t => negb (is_line_coord t)) (tag0 :: rest)
    /\ (if negb (String.eqb (snd tag0) "LINE"%string)
           || negb ((length (filter is_line_coord (tag0 :: rest)) =? 4)%nat
                    || (length (filter is_line_coord (tag0 :: rest)) =? 6)%nat)
        then out = tag0 :: rest else True).
Proof.
  unfold fix_line_coordinate_order. cbv beta iota zeta.
  set (tags := tag0 :: rest).
  destruct (negb (String.eqb (snd tag0) "LINE"%string)); cbn [orb].
  { exists tags. repeat split; reflexivity. }
  set (coordinates := filter is_line_coord tags).
  destruct (negb ((length coordinates =? 4)%nat || (length coordinates =? 6)%nat))
    eqn:Hcount.
  { exists tags. repeat split; reflexivity. }
  apply negb_false_iff in Hcount.
  assert (Hlen : length (sort_tags coordinates) = 4%nat
                 \/ length (sort_tags coordinates) = 6%nat).
  { rewrite <- (Permutation_length (sort_tags_perm coordinates)).
    apply orb_prop in Hcount as [H|H]; apply Nat.eqb_eq in H; auto. }
  assert (Hcoord : Forall (fun t => is_line_coord t = true)
                          (sort_tags coordinates)).
  { eapply Permutation_Forall; [apply sort_tags_perm|].
    apply filter_forall. }
  assert (Hsplit : Permutation tags
                     (sort_tags coordinates
                      ++ filter (fun t => negb (is_line_coord t)) tags)).
  { rewrite <- sort_tags_perm. apply filter_split_perm. }
  assert (Hothers : Forall (fun t => negb (is_line_coord t) = true)
                      (filter (fun t => negb (is_line_coord t)) tags))
    by apply (filter_forall (fun t => negb (is_line_coord t))).
  destruct coordinates as [|first more] eqn:Hc.
  { exfalso. simpl in Hlen. destruct Hlen; discriminate. }
  assert (Hin : In first tags).
  { assert (H : In first (filter is_line_coord tags))
      by (fold coordinates; rewrite Hc; now left).
    now apply filter_In in H. }
  destruct (list_index_in first tags Hin) as [index Hindex].
  rewrite Hindex.
  destruct (sort_tags (first :: more)) as [|c0 [|c1 [|c2 [|c3 [|c4 [|c5 [|c6 l]]]]]]];
    simpl in Hlen; try (exfalso; destruct Hlen; discriminate).
  - exists (slice_insert index [c0; c2; c1; c3]
              (filter (fun t => negb (is_line_coord t)) tags)).
    split; [reflexivity|]. split; [|split; [|exact I]].
    + etransitivity; [exact Hsplit|].
      etransitivity; [|apply slice_insert_perm].
      apply Permutation_app_tail.
      apply perm_skip. apply perm_swap.
    + apply slice_insert_keeps_others; [|exact Hothers].
      inversion Hcoord as [|? ? H0 Hr0]; subst.
      inversion Hr0 as [|? ? H1 Hr1]; subst.
      inversion Hr1 as [|? ? H2 Hr2]; subst.
      inversion Hr2 as [|? ? H3 Hr3]; subst.
      repeat constructor; assumption.
  - exists (slice_insert index [c0; c2; c4; c1; c3; c5]
              (filter (fun t => negb (is_line_coord t)) tags)).
    split; [reflexivity|]. split; [|split; [|exact I]].
    + etransitivity; [exact Hsplit|].
      etransitivity; [|apply slice_insert_perm].
      apply Permutation_app_tail.
      apply perm_skip.
      (* c1 c2 c3 c4 c5 ~ c2 c4 c1 c3 c5 *)
      transitivity [c2; c1; c3; c4; c5]; [apply perm_swap|].
      apply perm_skip.
      transitivity [c1; c4; c3; c5]; [apply perm_skip, perm_swap|].
      apply perm_swap.
    + apply slice_insert_keeps_others; [|exact Hothers].
      inversion Hcoord as [|? ? H0 Hr0]; subst.
      inversion Hr0 as [|? ? H1 Hr1]; subst.
      inversion Hr1 as [|? ? H2 Hr2]; subst.
      inversion Hr2 as [|? ? H3 Hr3]; subst.
      inversion Hr3 as [|? ? H4 Hr4]; subst.
      inversion Hr4 as [|? ? H5 Hr5]; subst.
      repeat constructor; assumption.
Qed.

(** X16. On a non-empty tag list [fix_line_coordinate_order] never
    raises.  Its result is a rearrangement of the tags: nothing is lost or
    added, and the tags that are not LINE coordinates (codes 10, 11, 20, 21,
    30, 31) keep their order.  When the first tag's value is not 'LINE', or
    the number of coordinate tags is neither 4 nor 6, the list comes back
    unchanged; on an empty list it raises IndexError. *)
Theorem fix_line_coordinate_order_rearranges :
  fix_line_coordinate_order [] = inl Repair_IndexError
  /\ forall (tag0 : DXFTag) (rest : list DXFTag),
      exists out,
        fix_line_coordinate_order (tag0 :: rest) = inr out
        /\ Permutation (tag0 :: rest) out
        /\ filter (fun t => negb (is_line_coord t)) out
           = filter (fun t => negb (is_line_coord t)) (tag0 :: rest)
        /\ (if negb (String.eqb (snd tag0) "LINE"%string)
               || negb ((length (filter is_line_coord (tag0 :: rest)) =? 4)%nat
                        || (length (filter is_line_coord (tag0 :: rest))
                            =? 6)%nat)
            then out = tag0 :: rest else True).
Proof.
  split; [reflexivity | apply fix_line_coordinate_order_run].
Qed.

Lemma list_index_after (x : DXFTag) (pre rest : list DXFTag) :
  is_line_coord x = true ->
  Forall (fun t => is_line_coord t = false) pre ->
  list_index x (pre ++ x :: rest) = Some (length pre).
Proof.
  intros Hx Hpre. induction Hpre as [|h pre Hh _ IH]; simpl.
  - now rewrite tag_eqb_refl.
  - destruct (tag_eqb h x) eqn:E.
    + apply tag_eqb_eq in E. subst. congruence.
    + now rewrite IH.
Qed.

Lemma slice_insert_at (pre items post : list DXFTag) :
  slice_insert (length pre) items (pre ++ post) = pre ++ items ++ post.
Proof.
  unfold slice_insert.
  induction pre as [|h pre IH]; simpl.
  - now destruct post.
  - now rewrite IH.
Qed.

(** a LINE entity whose coordinate tags stand together, between tags
    that are no coordinates *)
Lemma fix_line_block (head coords tail : list DXFTag) :
  Forall (fun t => is_line_coord t = false) head ->
  Forall (fun t => is_line_coord t = false) tail ->
  Forall (fun t => is_line_coord t = true) coords ->
  length coords = 4%nat \/ length coords = 6%nat ->
  fix_line_coordinate_order
    ((0%Z, "LINE"%string) :: head ++ coords ++ tail)
  = match sort_tags coords with
    | [c0; c1; c2; c3] =>
        inr ((0%Z, "LINE"%string) :: head ++ [c0; c2; c1; c3] ++ tail)
    | [c0; c1; c2; c3; c4; c5] =>
        inr ((0%Z, "LINE"%string) :: head ++ [c0; c2; c4; c1; c3; c5] ++ tail)
    | _ => inl Repair_IndexError
    end.
Proof.
  intros Hhead Htail Hcoords Hlen.
  assert (Hf : filter is_line_coord
                 ((0%Z, "LINE"%string) :: head ++ coords ++ tail) = coords).
  { cbn [filter]. change (is_line_coord (0%Z, "LINE"%string)) with false.
    cbv iota. rewrite !filter_app, (filter_none _ head Hhead),
      (filter_none _ tail Htail), (filter_all _ coords Hcoords).
    now rewrite app_nil_r. }
  assert (Hneg : forall l, Forall (fun t => is_line_coord t = false) l ->
                           Forall (fun t => negb (is_line_coord t) = true) l).
  { intros l H. eapply Forall_impl; [|exact H]. simpl. intros a Ha.
    now rewrite Ha. }
  assert (Hnegc : Forall (fun t => negb (is_line_coord t) = false) coords).
  { eapply Forall_impl; [|exact Hcoords]. simpl. intros a Ha.
    now rewrite Ha. }
  assert (Hg : filter (fun t => negb (is_line_coord t))
                 ((0%Z, "LINE"%string) :: head ++ coords ++ tail)
               = ((0%Z, "LINE"%string) :: head) ++ tail).
  { cbn [filter]. change (is_line_coord (0%Z, "LINE"%string)) with false.
    cbv iota beta. cbn [negb].
    rewrite !filter_app, (filter_all _ head (Hneg _ Hhead)),
      (filter_all _ tail (Hneg _ Htail)), (filter_none _ coords Hnegc).
    reflexivity. }
  unfold fix_line_coordinate_order. cbv beta iota zeta.
  rewrite Hf, Hg.
  change (String.eqb (snd (0%Z, "LINE"%string)) "LINE"%string) with true.
  cbn [negb].
  replace ((length coords =? 4)%nat || (length coords =? 6)%nat) with true
    by (destruct Hlen as [H|H]; rewrite H; reflexivity).
  cbn [negb].
  destruct coords as [|first more]; [simpl in Hlen; destruct Hlen; discriminate|].
  inversion Hcoords as [|? ? Hfirst _]; subst.
  change ((0%Z, "LINE"%string) :: head ++ (first :: more) ++ tail)
    with (((0%Z, "LINE"%string) :: head) ++ first :: (more ++ tail)).
  rewrite list_index_after;
    [|exact Hfirst | constructor; [reflexivity | exact Hhead]].
  assert (Hl : length (sort_tags (first :: more)) = length (first :: more))
    by (symmetry; apply Permutation_length, sort_tags_perm).
  destruct (sort_tags (first :: more))
    as [|c0 [|c1 [|c2 [|c3 [|c4 [|c5 [|c6 l]]]]]]]; try reflexivity;
    now rewrite slice_insert_at.
Qed.

(** X17. The reordering named in the source: in a LINE entity whose
    coordinate tags come as (10, 11, 20, 21) between tags that are no
    coordinates, [fix_line_coordinate_order] makes them (10, 20, 11, 21) in
    the place of the first; (10, 11, 20, 21, 30, 31) becomes
    (10, 20, 30, 11, 21, 31); and the order (10, 20, 11, 21) is left as it
    is.  All other tags stay where they are. *)
Theorem fix_line_coordinate_order_example
  (head tail : list DXFTag) (x1 x2 y1 y2 z1 z2 : String.string)
  (Hhead : Forall (fun t => is_line_coord t = false) head)
  (Htail : Forall (fun t => is_line_coord t = false) tail) :
  fix_line_coordinate_order
    ((0, "LINE"%string) :: head
       ++ [(10, x1); (11, x2); (20, y1); (21, y2)] ++ tail)%Z
  = inr ((0, "LINE"%string) :: head
           ++ [(10, x1); (20, y1); (11, x2); (21, y2)] ++ tail)%Z
  /\ fix_line_coordinate_order
       ((0, "LINE"%string) :: head
          ++ [(10, x1); (11, x2); (20, y1); (21, y2); (30, z1); (31, z2)]
          ++ tail)%Z
     = inr ((0, "LINE"%string) :: head
              ++ [(10, x1); (20, y1); (30, z1); (11, x2); (21, y2); (31, z2)]
              ++ tail)%Z
  /\ fix_line_coordinate_order
       ((0, "LINE"%string) :: head
          ++ [(10, x1); (20, y1); (11, x2); (21, y2)] ++ tail)%Z
     = inr ((0, "LINE"%string) :: head
              ++ [(10, x1); (20, y1); (11, x2); (21, y2)] ++ tail)%Z.
Proof.
  repeat split;
    (rewrite fix_line_block;
     [reflexivity | exact Hhead | exact Htail
     | repeat constructor | simpl; auto]).
Qed.

(** *** fix_coordinates *)

Lemma toolbox_line (v : String.string) :
  COORDINATE_FIXING_TOOLBOX v
  = if String.eqb v "LINE"%string then Some fix_line_coordinate_order
    else None.
Proof. reflexivity. Qed.

Lemma fix_coordinates_step_good (collector : option (list DXFTag))
  (tag : DXFTag) :
  collecting_line collector ->
  exists out collector',
    fix_coordinates_step collector tag = inr (out, collector')
    /\ collecting_line collector'
    /\ Permutation (pending collector ++ [tag]) (out ++ pending collector').
Proof.
  intro Hgood. unfold fix_coordinates_step.
  destruct (fst tag =? 0)%Z eqn:Hcode.
  - assert (Hflush : exists out,
               match collector with
               | None => inr []
               | Some [] => inl Repair_IndexError
               | Some ((tag0 :: _) as collected) =>
                   match COORDINATE_FIXING_TOOLBOX (snd tag0) with
                   | None => inl Repair_KeyError
                   | Some fixer => fixer collected
                   end
               end = inr out
               /\ Permutation (pending collector) out).
    { destruct collector as [collected|]; [|exists []; split; reflexivity].
      destruct Hgood as [body ->].
      destruct (fix_line_coordinate_order_run (0%Z, "LINE"%string) body)
        as (out & Hrun & Hperm & _).
      exists out. split; [exact Hrun | exact Hperm]. }
    destruct Hflush as (out & -> & Hperm).
    rewrite toolbox_line. destruct (String.eqb (snd tag) "LINE"%string) eqn:Hv.
    + exists out, (Some [tag]). split; [reflexivity|]. split.
      * exists []. destruct tag as [c v]. simpl in *.
        apply Z.eqb_eq in Hcode. apply String.eqb_eq in Hv. now subst.
      * simpl. now apply Permutation_app_tail.
    + exists (out ++ [tag]), None. split; [reflexivity|]. split; [exact I|].
      simpl. rewrite app_nil_r. now apply Permutation_app_tail.
  - destruct collector as [collected|].
    + exists [], (Some (collected ++ [tag])). split; [reflexivity|]. split.
      * destruct Hgood as [body ->]. now exists (body ++ [tag]).
      * reflexivity.
    + exists [tag], None. repeat split. simpl. reflexivity.
Qed.

Lemma fix_coordinates_loop_good (tags : list DXFTag) :
  forall collector,
    collecting_line collector ->
    exists out final,
      fix_coordinates_loop tags collector = (out, None, final)
      /\ collecting_line final
      /\ Permutation (pending collector ++ tags) (out ++ pending final).
Proof.
  induction tags as [|tag rest IH]; intros collector Hgood.
  - exists [], collector. split; [reflexivity|]. split; [exact Hgood|].
    simpl. now rewrite app_nil_r.
  - destruct (fix_coordinates_step_good collector tag Hgood)
      as (out & c' & Hstep & Hgood' & Hperm).
    destruct (IH c' Hgood') as (more & final & Hloop & Hfinal & Hperm').
    exists (out ++ more), final. simpl. rewrite Hstep, Hloop.
    split; [reflexivity|]. split; [exact Hfinal|].
    change (tag :: rest) with ([tag] ++ rest).
    rewrite app_assoc, Hperm, <- !app_assoc.
    apply Permutation_app_head.
    etransitivity; [exact Hperm'|]. reflexivity.
Qed.

Lemma fix_coordinates_loop_clean (tags : list DXFTag) :
  no_line tags = true ->
  fix_coordinates_loop tags None = (tags, None, None).
Proof.
  induction tags as [|tag rest IH]; intro Hclean; [reflexivity|].
  simpl in Hclean. apply andb_prop in Hclean as [Htag Hrest].
  cbn [fix_coordinates_loop]. unfold fix_coordinates_step.
  rewrite toolbox_line. unfold opens_line in Htag.
  destruct (fst tag =? 0)%Z; cbn [andb negb] in Htag.
  - apply negb_true_iff in Htag. rewrite Htag. now rewrite (IH Hrest).
  - now rewrite (IH Hrest).
Qed.

Lemma fix_coordinates_loop_app (l1 l2 : list DXFTag) :
  forall collector out1 c1,
    fix_coordinates_loop l1 collector = (out1, None, c1) ->
    fix_coordinates_loop (l1 ++ l2) collector
    = (out1 ++ fst (fst (fix_coordinates_loop l2 c1)),
       snd (fst (fix_coordinates_loop l2 c1)),
       snd (fix_coordinates_loop l2 c1)).
Proof.
  induction l1 as [|tag rest IH]; intros collector out1 c1 H.
  - simpl in H. inversion H; subst. simpl.
    now destruct (fix_coordinates_loop l2 c1) as [[o r] f].
  - cbn [app fix_coordinates_loop] in *.
    destruct (fix_coordinates_step collector tag) as [e|[out c']];
      [discriminate|].
    destruct (fix_coordinates_loop rest c') as [[more r] f] eqn:E.
    inversion H; subst.
    rewrite (IH c' more c1 E). cbn [fst snd]. now rewrite app_assoc.
Qed.

Lemma fix_coordinates_loop_collect (body : list DXFTag) :
  forall collected,
    no_entity_start body = true ->
    fix_coordinates_loop body (Some collected)
    = ([], None, Some (collected ++ body)).
Proof.
  induction body as [|tag rest IH]; intros collected Hbody.
  - simpl. now rewrite app_nil_r.
  - simpl in Hbody. apply andb_prop in Hbody as [Htag Hrest].
    apply negb_true_iff in Htag.
    cbn [fix_coordinates_loop]. unfold fix_coordinates_step. rewrite Htag.
    rewrite (IH _ Hrest). now rewrite <- app_assoc.
Qed.

(** X18. [fix_coordinates] never raises and neither invents nor repeats a
    tag: the tags it yields, followed by the tags of a LINE entity still
    being collected when the stream ends, are a rearrangement of the
    stream.  A stream in which no tag (0, 'LINE') occurs is yielded
    unchanged. *)
Theorem fix_coordinates_conserves (tags : list DXFTag) :
  exists out final,
    fix_coordinates_loop tags None = (out, None, final)
    /\ fix_coordinates tags = (out, None)
    /\ collecting_line final
    /\ Permutation tags (out ++ pending final)
    /\ (if no_line tags then out = tags /\ final = None else True).
Proof.
  destruct (fix_coordinates_loop_good tags None I)
    as (out & final & Hloop & Hfinal & Hperm).
  exists out, final. split; [exact Hloop|]. split.
  - unfold fix_coordinates. now rewrite Hloop.
  - split; [exact Hfinal|]. split; [exact Hperm|].
    destruct (no_line tags) eqn:Hclean; [|exact I].
    rewrite (fix_coordinates_loop_clean tags Hclean) in Hloop.
    inversion Hloop. now split.
Qed.

(** X19. A LINE entity in a stream: its tags, from (0, 'LINE') up to the
    next tag of code 0, are replaced by what [fix_line_coordinate_order]
    makes of them, and the tags around it pass unchanged.  A LINE entity
    that the stream ends in is not yielded at all. *)
Theorem fix_coordinates_line_entity
  (pre body post : list DXFTag) (next : DXFTag)
  (Hpre : no_line pre = true) (Hbody : no_entity_start body = true)
  (Hnext : (fst next =? 0)%Z && negb (opens_line next) = true)
  (Hpost : no_line post = true) :
  (exists fixed,
      fix_line_coordinate_order (LINE_start :: body) = inr fixed
      /\ fix_coordinates (pre ++ (LINE_start :: body) ++ next :: post)
         = (pre ++ fixed ++ next :: post, None))
  /\ fix_coordinates (pre ++ LINE_start :: body) = (pre, None).
Proof.
  apply andb_prop in Hnext as [Hcode Hnot].
  assert (Hstep : fix_coordinates_step None LINE_start
                  = inr ([], Some [LINE_start])) by reflexivity.
  assert (Hcollect : fix_coordinates_loop (LINE_start :: body) None
                     = ([], None, Some (LINE_start :: body))).
  { cbn [fix_coordinates_loop]. rewrite Hstep.
    now rewrite (fix_coordinates_loop_collect body _ Hbody). }
  split.
  - destruct (fix_line_coordinate_order_run LINE_start body)
      as (fixed & Hfix & _).
    exists fixed. split; [exact Hfix|].
    assert (Hflush : fix_coordinates_loop (next :: post)
                       (Some (LINE_start :: body))
                     = (fixed ++ next :: post, None, None)).
    { cbn [fix_coordinates_loop]. unfold fix_coordinates_step.
      rewrite Hcode.
      change (COORDINATE_FIXING_TOOLBOX (snd LINE_start))
        with (Some fix_line_coordinate_order).
      cbv iota. rewrite Hfix.
      rewrite toolbox_line. unfold opens_line in Hnot. rewrite Hcode in Hnot.
      cbn [andb] in Hnot. apply negb_true_iff in Hnot. rewrite Hnot.
      rewrite (fix_coordinates_loop_clean post Hpost).
      now rewrite <- app_assoc. }
    unfold fix_coordinates.
    rewrite (fix_coordinates_loop_app pre _ None _ _
               (fix_coordinates_loop_clean pre Hpre)).
    rewrite (fix_coordinates_loop_app _ (next :: post) None _ _ Hcollect).
    rewrite Hflush. reflexivity.
  - unfold fix_coordinates.
    rewrite (fix_coordinates_loop_app pre _ None _ _
               (fix_coordinates_loop_clean pre Hpre)).
    rewrite Hcollect. cbn [fst snd]. now rewrite app_nil_r.
Qed.

(** *** join_subclasses *)



(** *** enable_handles *)

(** X21. Writing a handle into the tags of an entity: on an empty tag list
    the access to the first tag raises IndexError; otherwise the first tag
    stays first, the result holds a tag of the handle code (105 for a
    DIMSTYLE entry, 5 for every other), a new handle tag is the second tag,
    and tags that already hold a tag of that code are returned as they are,
    so that a second call, with whatever handle, changes nothing. *)
Theorem put_handle_once (handle handle' : String.string) :
  put_handle handle [] = inl Repair_IndexError
  /\ forall (tag0 : DXFTag) (rest : list DXFTag),
      let handle_code :=
        if tag_eqb tag0 (0%Z, "DIMSTYLE"%string) then 105%Z else 5%Z in
      exists out,
        put_handle handle (tag0 :: rest) = inr out
        /\ hd_error out = Some tag0
        /\ existsb (fun tag => (fst tag =? handle_code)%Z) out = true
        /\ (if existsb (fun tag => (fst tag =? handle_code)%Z) (tag0 :: rest)
            then out = tag0 :: rest
            else out = tag0 :: (handle_code, handle) :: rest)
        /\ put_handle handle' out = inr out.
Proof.
  split; [reflexivity|]. intros tag0 rest handle_code.
  unfold put_handle at 1. fold handle_code.
  assert (Hcode : (if negb (tag_eqb tag0 (0%Z, "DIMSTYLE"%string))
                   then 5%Z else 105%Z) = handle_code).
  { unfold handle_code.
    now destruct (tag_eqb tag0 (0%Z, "DIMSTYLE"%string)). }
  cbv zeta. rewrite Hcode.
  destruct (existsb (fun tag => (fst tag =? handle_code)%Z) (tag0 :: rest))
    eqn:Hhas.
  - exists (tag0 :: rest). split; [reflexivity|]. split; [reflexivity|].
    split; [exact Hhas|]. split; [reflexivity|].
    unfold put_handle. cbv zeta. rewrite Hcode, Hhas. reflexivity.
  - exists (tag0 :: (handle_code, handle) :: rest).
    assert (Hnow : existsb (fun tag => (fst tag =? handle_code)%Z)
                     (tag0 :: (handle_code, handle) :: rest) = true).
    { cbn [existsb fst]. rewrite Z.eqb_refl.
      now rewrite orb_true_r. }
    split; [reflexivity|]. split; [reflexivity|].
    split; [exact Hnow|]. split; [reflexivity|].
    unfold put_handle. cbv zeta. rewrite Hcode, Hnow. reflexivity.
Qed.

(* ------------------------------------------------------------------ *)
(** ** The model run on concrete paths *)

Lemma uniform_samples_reach_end (point : Q -> Vec3 Q) (first last : Vec3 Q)
  (n : Z) : (1 <= n)%Z -> reaches_end (uniform_samples point first last n) last.
Proof.
  intro Hn. unfold uniform_samples.
  replace (n <? 1)%Z with false by (symmetry; apply Z.ltb_ge; lia).
  eexists; eexists; reflexivity.
Defined.

Lemma Q_samplers_reach_end : @samplers_reach_end Q Q_float Q_kernel.
Proof.
  repeat split; intros; simpl.
  - now apply uniform_samples_reach_end.
  - now apply uniform_samples_reach_end.
  - simpl in H. rewrite H. now apply uniform_samples_reach_end.
  - simpl in H. rewrite H. now apply uniform_samples_reach_end.
Defined.

(** Scenario 1: a closed triangle from three vertices. *)
Example from_vertices_triangle :
  from_vertices [pt 0 0 0; pt 1 0 0; pt 1 1 0] true
  = mkPath origin [LineTo (pt 1 0 0); LineTo (pt 1 1 0); LineTo (pt 0 0 0)]
  /\ is_closed (from_vertices [pt 0 0 0; pt 1 0 0; pt 1 1 0] true) = true.
Proof. split; vm_compute; reflexivity. Qed.

(** Scenario 2: a single line sampled with 4 segments. *)
Example approximate_line :
  approximate 4 (mkPath origin [LineTo (pt 2 0 0)])
  = ([origin; pt 2 0 0], None).
Proof. reflexivity. Qed.

(** Scenario 5: a curve far from the end of an empty path is bridged. *)
Example add_curves4_gap :
  add_curves4 [mkBezier4P (pt 5 0 0, pt 5 1 0, pt 6 1 0, pt 6 0 0)]
              (Path_init origin)
  = (inr tt, mkPath origin [LineTo (pt 5 0 0);
                            Curve4To (pt 6 0 0) (pt 5 1 0) (pt 6 1 0)]).
Proof. vm_compute; reflexivity. Qed.

(** A chain that ends where the path ends is taken backwards. *)
Example add_curves4_backwards :
  add_curves4 [mkBezier4P (pt 5 0 0, pt 5 1 0, pt 6 1 0, pt 0 0 0)]
              (Path_init origin)
  = (inr tt, mkPath origin [Curve4To (pt 5 0 0) (pt 6 1 0) (pt 5 1 0)]).
Proof. vm_compute; reflexivity. Qed.

(** Scenario 6: reversal of a line followed by a cubic curve. *)
Example reversed_demo :
  reversed demo_path
  = inr (mkPath (pt 2 1 0) [Curve4To (pt 1 0 0) (pt 2 0 0) (pt 1 1 0);
                            LineTo origin]).
Proof. reflexivity. Qed.

(** add_2d_polyline on a path that already has commands: the start moves. *)
Example add_2d_polyline_moves_start :
  add_2d_polyline [(7, 7, 0); (8, 7, 0)] false world_frame 0 demo_path
  = (inr tt,
     mkPath (mkVec3 7 7 0)
       [LineTo (pt 1 0 0); Curve4To (pt 2 1 0) (pt 1 1 0) (pt 2 0 0);
        LineTo (mkVec3 8 7 0)]).
Proof. vm_compute; reflexivity. Qed.

(** C2, on [demo_path] with 4 segments and distance 1/100. *)
Lemma sampling_endpoints_witness :
  (1 <= 4)%Z /\ is_pos (1 # 100) = true
  /\ well_typed (_commands demo_path) = true
  /\ traverses (approximate_curve3 4) (approximate_curve4 4) demo_path
               (approximate 4 demo_path)
  /\ traverses (flattening_curve3 (1 # 100) 4) (flattening_curve4 (1 # 100) 4)
               demo_path (flattening (1 # 100) 4 demo_path).
Proof.
  assert (Hn : (1 <= 4)%Z) by lia.
  destruct (sampling_endpoints demo_path 4 (1 # 100)) as (_ & _ & _ & _ & H).
  destruct (H Q_samplers_reach_end Hn eq_refl eq_refl) as [Ha Hf].
  split; [exact Hn|]. split; [reflexivity|]. split; [reflexivity|].
  split; [exact Ha | exact Hf].
Defined.

(** C3, on [demo_path]. *)
Lemma reversed_round_trip_witness :
  well_typed (_commands demo_path) = true
  /\ exists P', reversed demo_path = inr P' /\ reversed P' = inr demo_path.
Proof.
  split; [reflexivity|].
  exact (reversed_round_trip demo_path eq_refl).
Defined.

(** C3 as stated fails: the double reversal of a path without commands
    starts at the origin, wherever the path started. *)
Lemma reversed_round_trip_counterexample :
  exists P' P'' : QPath,
    reversed lone_start = inr P' /\ reversed P' = inr P''
    /\ start P'' <> start lone_start.
Proof.
  exists (Path_init NULLVEC), (Path_init NULLVEC).
  repeat split. discriminate.
Qed.

(** C4 as stated fails: the reversal of a path without commands starts at
    the origin, not at the end (= start) of the path. *)
Lemma reversed_shape_counterexample :
  exists P' : QPath,
    reversed lone_start = inr P' /\ start P' <> end_ lone_start.
Proof.
  exists (Path_init NULLVEC). split; [reflexivity | discriminate].
Qed.

(** C7, on [demo_path]. *)
Lemma close_idempotent_witness :
  isclose (_start demo_path) (_start demo_path) None = true
  /\ exec close demo_path
     = mkPath origin (_commands demo_path ++ [LineTo origin])
  /\ is_closed (exec close demo_path) = true
  /\ exec close (exec close demo_path) = exec close demo_path.
Proof.
  assert (Hrefl : isclose (_start demo_path) (_start demo_path) None = true)
    by (vm_compute; reflexivity).
  destruct (close_idempotent demo_path) as [Hrun Htwice].
  destruct (Htwice Hrefl) as (Hc & Hi & _).
  split; [exact Hrefl|]. split; [|split; [exact Hc | exact Hi]].
  unfold exec. rewrite Hrun. vm_compute; reflexivity.
Defined.

Lemma triangle_built : api_built triangle.
Proof.
  unfold triangle, triangle_calls; cbn [fold_left].
  repeat apply built_call. apply built_init.
Defined.

(** C8, on a path built by API calls and on a path with a foreign element. *)
Lemma unsupported_command_witness :
  (1 <= 4)%Z /\ is_pos (1 # 100) = true
  /\ holds_unsupported foreign_path
  /\ raises_invalid_command (approximate 4 foreign_path)
  /\ raises_invalid_command (flattening (1 # 100) 4 foreign_path)
  /\ api_built triangle
  /\ snd (approximate 4 triangle) = None
  /\ snd (flattening (1 # 100) 4 triangle) = None.
Proof.
  assert (Hn : (1 <= 4)%Z) by lia.
  assert (Hforeign : holds_unsupported foreign_path).
  { exists (External (pt 2 0 0)). split; [right; left; reflexivity|].
    repeat split; discriminate. }
  destruct (unsupported_command_unreachable Q_samplers_reach_end 4 (1 # 100)
              Hn eq_refl) as [Hany Hbuilt].
  destruct (Hany foreign_path) as (Ha & Hf & _).
  destruct (Hbuilt triangle triangle_built) as (_ & Ha' & Hf').
  split; [exact Hn|]. split; [reflexivity|]. split; [exact Hforeign|].
  split; [now apply Ha|]. split; [now apply Hf|].
  split; [exact triangle_built|]. split; assumption.
Defined.

(* ------------------------------------------------------------------ *)
(** ** The further properties on concrete paths *)

(** X1, on [demo_path]. *)
Lemma control_vertices_ends_witness :
  well_typed (_commands demo_path) = true
  /\ exists mid, control_vertices demo_path
                 = origin :: mid ++ [end_ demo_path].
Proof.
  split; [reflexivity|].
  destruct (@control_vertices_ends Q) as [_ H].
  exact (H origin demo_line [demo_curve] eq_refl).
Defined.

(** X2, on [demo_path]. *)
Lemma control_vertices_reversed_witness :
  well_typed (_commands demo_path) = true
  /\ exists R, reversed demo_path = inr R
               /\ control_vertices R = rev (control_vertices demo_path).
Proof.
  split; [reflexivity|].
  exact (control_vertices_reversed origin demo_line [demo_curve] eq_refl).
Defined.

(** X4, on [demo_path]. *)
Lemma reversed_swaps_ends_witness :
  well_typed (_commands demo_path) = true
  /\ exists R, reversed demo_path = inr R
               /\ start R = end_ demo_path
               /\ end_ R = origin
               /\ len R = len demo_path
               /\ is_closed R = isclose (end_ demo_path) origin None.
Proof.
  split; [reflexivity|].
  exact (reversed_swaps_ends origin demo_line [demo_curve] eq_refl).
Defined.

(** X6, on the triangle of scenario 1. *)
Lemma from_vertices_closed_witness :
  isclose origin origin None = true
  /\ is_closed (from_vertices [origin; pt 1 0 0; pt 1 1 0] true) = true.
Proof.
  assert (Hrefl : isclose origin origin None = true)
    by (vm_compute; reflexivity).
  split; [exact Hrefl|].
  exact (proj2 (from_vertices_closed origin (pt 1 0 0) [pt 1 1 0]) Hrefl).
Defined.

(** X7, on [demo_path] in the mirrored frame at elevation 5. *)
Lemma to_wcs_maps_every_point_witness :
  well_typed (_commands demo_path) = true
  /\ _to_wcs mirrored_frame 5 demo_path
     = (inr tt,
        map_path (fun v => ocs_to_wcs mirrored_frame (replace_z v 5))
                 demo_path).
Proof.
  split; [reflexivity|].
  exact (to_wcs_maps_every_point mirrored_frame 5 demo_path eq_refl).
Defined.

Lemma demo_matrix_pointwise : transform_vertices_pointwise demo_matrix.
Proof. intro vs; reflexivity. Defined.

(** X8, on [demo_path] and on [foreign_path]. *)
Lemma transform_maps_every_point_witness :
  transform_vertices_pointwise demo_matrix
  /\ transform demo_matrix demo_path
     = inr (map_path (m44_transform demo_matrix) demo_path)
  /\ transform demo_matrix foreign_path = inl (Invalid_command START_PATH).
Proof.
  split; [exact demo_matrix_pointwise|]. split.
  - exact (proj1 (transform_maps_every_point demo_matrix
                    demo_matrix_pointwise demo_path)).
  - exact (proj1 (transform_maps_every_point demo_matrix
                    demo_matrix_pointwise foreign_path)).
Defined.

(** X9, on [demo_path]. *)
Lemma transform_commutes_with_reversed_witness :
  transform_vertices_pointwise demo_matrix
  /\ well_typed (_commands demo_path) = true
  /\ exists R T Q : QPath,
       reversed demo_path = inr R
       /\ transform demo_matrix demo_path = inr T
       /\ reversed T = inr Q
       /\ transform demo_matrix R = inr Q.
Proof.
  split; [exact demo_matrix_pointwise|]. split; [reflexivity|].
  exact (transform_commutes_with_reversed demo_matrix demo_matrix_pointwise
           origin demo_line [demo_curve] eq_refl).
Defined.

(** X10, on the counter-clockwise triangle. *)
Lemma clockwise_normalizes_witness :
  well_typed (_commands closed_triangle) = true
  /\ has_clockwise_orientation closed_triangle = inr false
  /\ exists CW CCW : QPath,
       clockwise closed_triangle = inr CW
       /\ counter_clockwise closed_triangle = inr CCW
       /\ has_clockwise_orientation CW = inr true
       /\ has_clockwise_orientation CCW = inr false.
Proof.
  assert (Hb : math_has_clockwise_orientation
                 (control_vertices closed_triangle) = inr false)
    by (vm_compute; reflexivity).
  assert (Hflip : math_has_clockwise_orientation
                    (rev (control_vertices closed_triangle))
                  = inr (negb false))
    by (vm_compute; reflexivity).
  split; [reflexivity|]. split; [exact Hb|].
  destruct (clockwise_normalizes origin (LineTo (pt 1 0 0))
              [LineTo (pt 1 1 0); LineTo origin] false eq_refl Hb Hflip)
    as (CW & CCW & H1 & H2 & H3 & H4 & _).
  exists CW, CCW. repeat split; assumption.
Defined.

Lemma straight_points_straight : straight straight_points.
Proof. repeat constructor. Defined.

(** X13, on three vertices in the world frame. *)
Lemma add_2d_polyline_straight_witness :
  truthy (0 : Q) = false
  /\ straight straight_points
  /\ add_2d_polyline straight_points true world_frame 0 (Path_init (pt 9 9 9))
     = (inr tt, from_vertices (polyline_points straight_points) true).
Proof.
  split; [reflexivity|]. split; [exact straight_points_straight|].
  exact (proj2 (add_2d_polyline_straight (eq_refl : truthy (0 : Q) = false)
                  world_frame 0 eq_refl eq_refl)
           _ _ _ true (pt 9 9 9) straight_points_straight).
Defined.

(** X14, on [foreign_path]. *)
Lemma sampling_stops_at_foreign_witness :
  (1 <= 4)%Z /\ is_pos (1 # 100) = true
  /\ approximate 4 foreign_path
     = ([origin; pt 1 0 0], Some (ValueError_invalid_command START_PATH)).
Proof.
  assert (Hn : (1 <= 4)%Z) by lia.
  split; [exact Hn|]. split; [reflexivity|].
  exact (proj1 (sampling_stops_at_foreign Q_samplers_reach_end 4 (1 # 100)
                  Hn eq_refl origin (pt 2 0 0) [LineTo (pt 1 0 0)]
                  [LineTo (pt 3 0 0)] eq_refl)).
Defined.

(** X15, on [demo_path] extended by a line to (5, 5, 0). *)
Lemma sampling_after_line_to_witness :
  (1 <= 4)%Z /\ is_pos (1 # 100) = true
  /\ well_typed (_commands demo_path) = true
  /\ approximate 4 (exec (line_to (pt 5 5 0)) demo_path)
     = (fst (approximate 4 demo_path) ++ [pt 5 5 0], None).
Proof.
  assert (Hn : (1 <= 4)%Z) by lia.
  split; [exact Hn|]. split; [reflexivity|]. split; [reflexivity|].
  exact (proj1 (sampling_after_line_to Q_samplers_reach_end 4 (1 # 100)
                  Hn eq_refl demo_path (pt 5 5 0) eq_refl)).
Defined.

(** X17, on a LINE entity with a layer tag before and a colour tag after
    the coordinates. *)
Lemma fix_line_coordinate_order_example_witness :
  Forall (fun t => is_line_coord t = false) [(8, "0"%string)]%Z
  /\ Forall (fun t => is_line_coord t = false) [(62, "1"%string)]%Z
  /\ fix_line_coordinate_order
       [(0, "LINE"); (8, "0"); (10, "1.0"); (11, "2.0"); (20, "3.0");
        (21, "4.0"); (62, "1")]%string%Z
     = inr [(0, "LINE"); (8, "0"); (10, "1.0"); (20, "3.0"); (11, "2.0");
            (21, "4.0"); (62, "1")]%string%Z.
Proof.
  assert (Hhead : Forall (fun t => is_line_coord t = false)
                    [(8, "0"%string)]%Z) by (repeat constructor).
  assert (Htail : Forall (fun t => is_line_coord t = false)
                    [(62, "1"%string)]%Z) by (repeat constructor).
  split; [exact Hhead|]. split; [exact Htail|].
  exact (proj1 (fix_line_coordinate_order_example
                  [(8, "0"%string)]%Z [(62, "1"%string)]%Z
                  "1.0"%string "2.0"%string "3.0"%string "4.0"%string
                  "5.0"%string "6.0"%string Hhead Htail)).
Defined.

(** X19, on a stream with one LINE entity between a section start and a
    CIRCLE entity. *)
Lemma fix_coordinates_line_entity_witness :
  fix_coordinates
    ([(0, "SECTION"); (2, "ENTITIES")]
       ++ (LINE_start
             :: [(8, "0"); (10, "1.0"); (11, "2.0"); (20, "3.0");
                 (21, "4.0")])
       ++ (0, "CIRCLE") :: [(8, "0"); (0, "EOF")])%string%Z
  = ([(0, "SECTION"); (2, "ENTITIES"); (0, "LINE"); (8, "0"); (10, "1.0");
      (20, "3.0"); (11, "2.0"); (21, "4.0"); (0, "CIRCLE"); (8, "0");
      (0, "EOF")]%string%Z, None)
  /\ fix_coordinates
       ([(0, "SECTION"); (2, "ENTITIES")]
          ++ LINE_start
          :: [(8, "0"); (10, "1.0"); (11, "2.0"); (20, "3.0");
              (21, "4.0")])%string%Z
     = ([(0, "SECTION"); (2, "ENTITIES")]%string%Z, None).
Proof.
  destruct (fix_coordinates_line_entity
              [(0, "SECTION"); (2, "ENTITIES")]%string%Z
              [(8, "0"); (10, "1.0"); (11, "2.0"); (20, "3.0");
               (21, "4.0")]%string%Z
              [(8, "0"); (0, "EOF")]%string%Z
              (0, "CIRCLE")%string%Z
              eq_refl eq_refl eq_refl eq_refl)
    as [[fixed [Hfixed Hstream]] Hend].
  split; [|exact Hend].
  vm_compute in Hfixed. injection Hfixed as <-. exact Hstream.
Defined.
